(** * historai: the Zsh history parser (internal/history/zsh.go)

    A shallow embedding of [parseHistory], [ensureValidUTF8] and
    [applyLimitFilter], together with the parts of the Go standard library
    they call (unicode/utf8, unicode, strings, strconv), and the properties
    of the parser that the specification states.

    Conventions.
    - A Go [string] and a Go [[]byte] are both [list byte].
    - Go's [int], [int64] and [rune] values are integers of [Z]; where the Go
      code relies on wrap-around, it is written out.
    - An index loop of the Go code is a [Fixpoint] on a fuel argument that
      the caller sets to the length of the string. Every turn of such a loop
      consumes at least one byte, so the fuel is never used up; the lemmas
      on the loops hold of every amount of fuel from that length on.
    - A nil slice and an empty slice are both [[]]. *)

From Stdlib Require Import Strings.String Strings.Byte.
From Stdlib Require Import List ZArith Lia Bool.
Import ListNotations.

Local Open Scope Z_scope.

(** The bytes of a string literal. *)
Definition str (s : string) : list byte := list_byte_of_string s.

(** The numeric value of a byte. *)
Definition u8 (b : byte) : Z := Z.of_N (Byte.to_N b).

(** [s[i]]; the Go code below never indexes out of range. *)
Definition at_ (s : list byte) (i : Z) : byte := nth (Z.to_nat i) s x00.

(** [s[lo:hi]] *)
Definition slice (s : list byte) (lo hi : Z) : list byte :=
  firstn (Z.to_nat (hi - lo)) (skipn (Z.to_nat lo) s).

(** [len(s)] *)
Definition len {A} (s : list A) : Z := Z.of_nat (length s).

(** ** unicode/utf8 *)
Module utf8.

Definition RuneError : Z := 0xFFFD.
Definition RuneSelf : Z := 0x80.
Definition UTFMax : Z := 4.

Definition maskx : Z := 0x3F.
Definition mask2 : Z := 0x1F.
Definition mask3 : Z := 0x0F.
Definition mask4 : Z := 0x07.

Definition locb : Z := 0x80.
Definition hicb : Z := 0xBF.

(* The names of the entries of [first]. *)
Definition xx : Z := 0xF1.
Definition as_ : Z := 0xF0.
Definition s1 : Z := 0x02.
Definition s2 : Z := 0x13.
Definition s3 : Z := 0x03.
Definition s4 : Z := 0x23.
Definition s5 : Z := 0x34.
Definition s6 : Z := 0x04.
Definition s7 : Z := 0x44.

(** The table [first], an array of 256 entries in Go, given by its runs of
    equal entries. *)
Definition first (b : byte) : Z :=
  let c := u8 b in
  if c <=? 0x7F then as_
  else if c <=? 0xC1 then xx
  else if c <=? 0xDF then s1
  else if c =? 0xE0 then s2
  else if c <=? 0xEC then s3
  else if c =? 0xED then s4
  else if c <=? 0xEF then s3
  else if c =? 0xF0 then s5
  else if c <=? 0xF3 then s6
  else if c =? 0xF4 then s7
  else xx.

(** [acceptRanges[i]] as the pair [(lo, hi)]. *)
Definition acceptRanges (i : Z) : Z * Z :=
  if i =? 0 then (locb, hicb)
  else if i =? 1 then (0xA0, hicb)
  else if i =? 2 then (locb, 0x9F)
  else if i =? 3 then (0x90, hicb)
  else if i =? 4 then (locb, 0x8F)
  else (0, 0).

(** Conversion to [int32], two's complement. *)
Definition int32 (z : Z) : Z := (z + 2 ^ 31) mod 2 ^ 32 - 2 ^ 31.

(** [DecodeRuneInString(s)]: the first rune of [s] and its width in bytes;
    [(RuneError, 0)] on the empty string and [(RuneError, 1)] on an invalid
    encoding. *)
Definition DecodeRuneInString (s : list byte) : Z * Z :=
  match s with
  | [] => (RuneError, 0)
  | b0 :: t0 =>
    let x := first b0 in
    if as_ <=? x then
      (* mask is 0 for [as] and all ones for [xx] *)
      let mask := Z.shiftr (int32 (Z.shiftl x 31)) 31 in
      (Z.lor (Z.land (u8 b0) (Z.lnot mask)) (Z.land RuneError mask), 1)
    else
      let sz := Z.land x 7 in
      let accept := acceptRanges (Z.shiftr x 4) in
      if len s <? sz then (RuneError, 1) else
      match t0 with
      | [] => (RuneError, 1)
      | b1 :: t1 =>
        if (u8 b1 <? fst accept) || (snd accept <? u8 b1) then (RuneError, 1)
        else if sz <=? 2 then
          (Z.lor (Z.shiftl (Z.land (u8 b0) mask2) 6) (Z.land (u8 b1) maskx), 2)
        else
        match t1 with
        | [] => (RuneError, 1)
        | b2 :: t2 =>
          if (u8 b2 <? locb) || (hicb <? u8 b2) then (RuneError, 1)
          else if sz <=? 3 then
            (Z.lor (Z.lor (Z.shiftl (Z.land (u8 b0) mask3) 12)
                          (Z.shiftl (Z.land (u8 b1) maskx) 6))
                   (Z.land (u8 b2) maskx), 3)
          else
          match t2 with
          | [] => (RuneError, 1)
          | b3 :: _ =>
            if (u8 b3 <? locb) || (hicb <? u8 b3) then (RuneError, 1)
            else
            (Z.lor (Z.lor (Z.lor (Z.shiftl (Z.land (u8 b0) mask4) 18)
                                 (Z.shiftl (Z.land (u8 b1) maskx) 12))
                          (Z.shiftl (Z.land (u8 b2) maskx) 6))
                   (Z.land (u8 b3) maskx), 4)
          end
        end
      end
  end.

(** [RuneStart(b)]: [b] is not a continuation byte. *)
Definition RuneStart (b : byte) : bool :=
  negb (Z.land (u8 b) 0xC0 =? 0x80).

(** The loop of [DecodeLastRuneInString] that walks back from [start] to the
    first byte that can start a rune, not below [lim]. *)
Fixpoint scanBack (fuel : nat) (s : list byte) (start lim : Z) : Z :=
  match fuel with
  | O => start
  | S fuel' =>
    if start <? lim then start
    else if RuneStart (at_ s start) then start
    else scanBack fuel' s (start - 1) lim
  end.

(** [DecodeLastRuneInString(s)]: the last rune of [s] and its width. *)
Definition DecodeLastRuneInString (s : list byte) : Z * Z :=
  let end_ := len s in
  if end_ =? 0 then (RuneError, 0) else
  let start := end_ - 1 in
  let r := u8 (at_ s start) in
  if r <? RuneSelf then (r, 1) else
  let lim := end_ - UTFMax in
  let lim := if lim <? 0 then 0 else lim in
  let start := scanBack (Z.to_nat UTFMax) s (start - 1) lim in
  let start := if start <? 0 then 0 else start in
  let '(r, size) := DecodeRuneInString (slice s start end_) in
  if negb (start + size =? end_) then (RuneError, 1) else (r, size).

(** [Valid(p)]: [p] consists entirely of valid UTF-8 encoded runes.  The Go
    function first skips blocks of eight ASCII bytes, which the main loop
    below would skip one by one. *)
Fixpoint Valid_loop (fuel : nat) (p : list byte) : bool :=
  match fuel with
  | O => true
  | S fuel' =>
    match p with
    | [] => true
    | pi :: _ =>
      if u8 pi <? RuneSelf then Valid_loop fuel' (skipn 1 p)
      else
        let x := first pi in
        if x =? xx then false else
        let size := Z.land x 7 in
        if len p <? size then false else
        let accept := acceptRanges (Z.shiftr x 4) in
        let c := u8 (at_ p 1) in
        if (c <? fst accept) || (snd accept <? c) then false
        else if size =? 2 then Valid_loop fuel' (skipn 2 p)
        else
          let c := u8 (at_ p 2) in
          if (c <? locb) || (hicb <? c) then false
          else if size =? 3 then Valid_loop fuel' (skipn 3 p)
          else
            let c := u8 (at_ p 3) in
            if (c <? locb) || (hicb <? c) then false
            else Valid_loop fuel' (skipn (Z.to_nat size) p)
    end
  end.

Definition Valid (p : list byte) : bool := Valid_loop (length p) p.

End utf8.

(** ** unicode *)
Module unicode.

Definition MaxLatin1 : Z := 0xFF.

(** [IsSpace(r)]: the Latin-1 switch, and above Latin-1 the entries of the
    [White_Space] range table. *)
Definition IsSpace (r : Z) : bool :=
  if (0 <=? r) && (r <=? MaxLatin1) then
    (r =? 9) || (r =? 10) || (r =? 11) || (r =? 12) || (r =? 13)
    || (r =? 0x20) || (r =? 0x85) || (r =? 0xA0)
  else
    (r =? 0x1680) || ((0x2000 <=? r) && (r <=? 0x200A))
    || (r =? 0x2028) || (r =? 0x2029) || (r =? 0x202F) || (r =? 0x205F)
    || (r =? 0x3000).

End unicode.

(** ** strings *)
Module strings.
Import utf8 unicode.

(** [s == t] on strings. *)
Definition eqb (s t : list byte) : bool :=
  if list_eq_dec Byte.byte_eq_dec s t then true else false.

(** [HasSuffix(s, suffix)] *)
Definition HasSuffix (s suffix : list byte) : bool :=
  (len suffix <=? len s) && eqb (slice s (len s - len suffix) (len s)) suffix.

(** The first loop of [ToValidUTF8], [for i, c := range s]: the index of the
    first byte of [s] that is not part of a valid encoding, if there is one.
    [s] is the rest of the string from index [i] on. *)
Fixpoint firstInvalid (fuel : nat) (s : list byte) (i : Z) : option Z :=
  match fuel with
  | O => None
  | S fuel' =>
    match s with
    | [] => None
    | _ =>
      let '(c, w) := DecodeRuneInString s in
      if negb (c =? RuneError) then firstInvalid fuel' (skipn (Z.to_nat w) s) (i + w)
      else
        let '(_, wid) := DecodeRuneInString s in
        if wid =? 1 then Some i
        else firstInvalid fuel' (skipn (Z.to_nat w) s) (i + w)
    end
  end.

(** The second loop of [ToValidUTF8]: [s] is the rest of the string from
    index [i] on, [b] the builder. *)
Fixpoint toValidLoop (fuel : nat) (s : list byte) (replacement : list byte)
         (invalid : bool) (b : list byte) : list byte :=
  match fuel with
  | O => b
  | S fuel' =>
    match s with
    | [] => b
    | c :: s' =>
      if u8 c <? RuneSelf then
        toValidLoop fuel' s' replacement false (b ++ [c])
      else
        let '(_, wid) := DecodeRuneInString s in
        if wid =? 1 then
          toValidLoop fuel' s' replacement true
                      (if negb invalid then b ++ replacement else b)
        else
          toValidLoop fuel' (skipn (Z.to_nat wid) s) replacement false
                      (b ++ firstn (Z.to_nat wid) s)
    end
  end.

(** [ToValidUTF8(s, replacement)]: [s] with each run of invalid bytes
    replaced by [replacement]. *)
Definition ToValidUTF8 (s replacement : list byte) : list byte :=
  match firstInvalid (length s) s 0 with
  | None => s
  | Some i =>
    let b := slice s 0 i in
    let s := skipn (Z.to_nat i) s in
    toValidLoop (length s) s replacement false b
  end.

(** [asciiSpace[c]] *)
Definition asciiSpace (c : byte) : Z :=
  let v := u8 c in
  if (v =? 9) || (v =? 10) || (v =? 11) || (v =? 12) || (v =? 13) || (v =? 32)
  then 1 else 0.

(** [indexFunc(s, f, truth)]: the index of the first rune [r] of [s] with
    [f(r) == truth], or [-1]. [s] is the rest of the string from [i] on. *)
Fixpoint indexFunc_loop (fuel : nat) (s : list byte) (i : Z)
         (f : Z -> bool) (truth : bool) : Z :=
  match fuel with
  | O => -1
  | S fuel' =>
    match s with
    | [] => -1
    | _ =>
      let '(r, w) := DecodeRuneInString s in
      if Bool.eqb (f r) truth then i
      else indexFunc_loop fuel' (skipn (Z.to_nat w) s) (i + w) f truth
    end
  end.

Definition indexFunc (s : list byte) (f : Z -> bool) (truth : bool) : Z :=
  indexFunc_loop (length s) s 0 f truth.

(** [lastIndexFunc(s, f, truth)]: the index of the last rune [r] of [s] with
    [f(r) == truth], or [-1]. The loop variable [i] is the second argument. *)
Fixpoint lastIndexFunc_loop (fuel : nat) (s : list byte) (i : Z)
         (f : Z -> bool) (truth : bool) : Z :=
  match fuel with
  | O => -1
  | S fuel' =>
    if 0 <? i then
      let '(r, size) := DecodeLastRuneInString (slice s 0 i) in
      let i := i - size in
      if Bool.eqb (f r) truth then i
      else lastIndexFunc_loop fuel' s i f truth
    else -1
  end.

Definition lastIndexFunc (s : list byte) (f : Z -> bool) (truth : bool) : Z :=
  lastIndexFunc_loop (length s) s (len s) f truth.

(** [TrimLeftFunc(s, f)] *)
Definition TrimLeftFunc (s : list byte) (f : Z -> bool) : list byte :=
  let i := indexFunc s f false in
  if i =? -1 then [] else slice s i (len s).

(** [TrimRightFunc(s, f)] *)
Definition TrimRightFunc (s : list byte) (f : Z -> bool) : list byte :=
  let i := lastIndexFunc s f false in
  let i :=
    if (0 <=? i) && (RuneSelf <=? u8 (at_ s i)) then
      let '(_, wid) := DecodeRuneInString (slice s i (len s)) in
      i + wid
    else i + 1 in
  slice s 0 i.

(** [TrimFunc(s, f)] *)
Definition TrimFunc (s : list byte) (f : Z -> bool) : list byte :=
  TrimRightFunc (TrimLeftFunc s f) f.

(** The second loop of [TrimSpace], which moves [stop] down from [len(s)]. *)
Fixpoint trimSpaceStop (fuel : nat) (s : list byte) (start stop : Z) : list byte :=
  match fuel with
  | O => slice s start stop
  | S fuel' =>
    if start <? stop then
      let c := at_ s (stop - 1) in
      if RuneSelf <=? u8 c then TrimRightFunc (slice s start stop) IsSpace
      else if asciiSpace c =? 0 then slice s start stop
      else trimSpaceStop fuel' s start (stop - 1)
    else slice s start stop
  end.

(** The first loop of [TrimSpace], which moves [start] up from [0]. *)
Fixpoint trimSpaceStart (fuel : nat) (s : list byte) (start : Z) : list byte :=
  match fuel with
  | O => trimSpaceStop (length s) s start (len s)
  | S fuel' =>
    if start <? len s then
      let c := at_ s start in
      if RuneSelf <=? u8 c then TrimFunc (slice s start (len s)) IsSpace
      else if asciiSpace c =? 0 then trimSpaceStop (length s) s start (len s)
      else trimSpaceStart fuel' s (start + 1)
    else trimSpaceStop (length s) s start (len s)
  end.

(** [TrimSpace(s)]: [s] without leading and trailing white space. *)
Definition TrimSpace (s : list byte) : list byte :=
  trimSpaceStart (length s) s 0.

End strings.

(** ** strconv *)
Module strconv.

Inductive NumError : Type := ErrSyntax | ErrRange.

Definition maxUint64 : Z := 2 ^ 64 - 1.

(** [lower(c)] *)
Definition lower (c : Z) : Z := Z.lor c 0x20.

(** The digit loop of [ParseUint(s, 10, 64)]; [n] is a [uint64]. *)
Fixpoint parseUintLoop (s : list byte) (n : Z) : Z * option NumError :=
  match s with
  | [] => (n, None)
  | b :: s' =>
    let c := u8 b in
    (* base is 10, so [base0] is false and an underscore is no digit *)
    let d :=
      if (0x30 <=? c) && (c <=? 0x39) then Some (c - 0x30)
      else if (0x61 <=? lower c) && (lower c <=? 0x7A)
      then Some ((lower c - 0x61 + 10) mod 2 ^ 8)
      else None in
    match d with
    | None => (0, Some ErrSyntax)
    | Some d =>
      if 10 <=? d then (0, Some ErrSyntax) else
      let cutoff := maxUint64 / 10 + 1 in
      let maxVal := 2 ^ 64 - 1 in
      if cutoff <=? n then (maxVal, Some ErrRange) else
      let n := (n * 10) mod 2 ^ 64 in
      let n1 := (n + d) mod 2 ^ 64 in
      if (n1 <? n) || (maxVal <? n1) then (maxVal, Some ErrRange)
      else parseUintLoop s' n1
    end
  end.

(** [ParseUint(s, 10, 64)] *)
Definition ParseUint (s : list byte) : Z * option NumError :=
  match s with
  | [] => (0, Some ErrSyntax)
  | _ => parseUintLoop s 0
  end.

(** [ParseInt(s, 10, 64)]: the value and the error. On a range error the
    value is the largest integer of the sign. *)
Definition ParseInt (s : list byte) : Z * option NumError :=
  match s with
  | [] => (0, Some ErrSyntax)
  | s0 :: t =>
    let '(neg, s') :=
      if Byte.eqb s0 x2b then (false, t)
      else if Byte.eqb s0 x2d then (true, t)
      else (false, s) in
    let '(un, err) := ParseUint s' in
    match err with
    | Some ErrSyntax => (0, err)
    | _ =>
      let cutoff := 2 ^ 63 in
      if negb neg && (cutoff <=? un) then (cutoff - 1, Some ErrRange)
      else if neg && (cutoff <? un) then (- cutoff, Some ErrRange)
      else ((if neg then - un else un), None)
    end
  end.

End strconv.

(** ** internal/history *)
Module history.
Import utf8 unicode strings.

(** [HistoryEntry] (history.go) *)
Record HistoryEntry : Type := { Timestamp : Z; Command : list byte }.

Inductive error : Type :=
| ScanError (code : nat)                  (* what [scanner.Err()] reports *)
| OpenError (code : nat)                  (* what [os.Open] reports *)
| Errorf (format : string) (e : error).   (* [fmt.Errorf(format, ..., e)] *)

(** What [bufio.NewScanner(reader)] makes of the reader: the calls of
    [scanner.Scan()] yield [lines] one after the other (the scanner splits
    at line ends and drops them), then [Scan] returns false and
    [scanner.Err()] is [readErr], [None] when the input just ended. A
    failure of the underlying read and a line too long for the buffer of
    the scanner both end the lines with an error. *)
Record Reader : Type := { lines : list (list byte); readErr : option error }.

(** The literal ["\uFFFD"] *)
Definition replacement : list byte := [xef; xbf; xbd].

(** [ensureValidUTF8] *)
Definition ensureValidUTF8 (lineBytes : list byte) : list byte :=
  if Valid lineBytes then lineBytes
  else ToValidUTF8 lineBytes replacement.

Definition isDigit (b : byte) : bool := (0x30 <=? u8 b) && (u8 b <=? 0x39).

Definition notNewline (b : byte) : bool := negb (u8 b =? 0x0A).

(** The longest prefix of [s] whose bytes satisfy [p], and the rest. *)
Fixpoint span (p : byte -> bool) (s : list byte) : list byte * list byte :=
  match s with
  | [] => ([], [])
  | b :: s' =>
    if p b then let '(u, v) := span p s' in (b :: u, v) else ([], s)
  end.

(** [re.FindStringSubmatch(line)] for [re] the pattern
    [^: (\d{10,}):\d+;(.+)]: the match and its two groups, or nil.
    Each piece of the pattern is followed by a byte it cannot match, or is
    the last one, so the greedy match is the only match: [\d] is an ASCII
    digit, and [.] is every character but the newline. *)
Definition FindStringSubmatch (line : list byte) : list (list byte) :=
  match line with
  | c0 :: c1 :: r0 =>
    if Byte.eqb c0 x3a && Byte.eqb c1 x20 then        (* [^: ] *)
      let '(ts, r1) := span isDigit r0 in             (* [(\d{10,})] *)
      if 10 <=? len ts then
        match r1 with
        | c2 :: r2 =>
          if Byte.eqb c2 x3a then                     (* [:] *)
            let '(el, r3) := span isDigit r2 in       (* [\d+] *)
            if 1 <=? len el then
              match r3 with
              | c3 :: r4 =>
                if Byte.eqb c3 x3b then               (* [;] *)
                  let '(cmd, _) := span notNewline r4 in   (* [(.+)] *)
                  if 1 <=? len cmd then
                    [ [x3a; x20] ++ ts ++ [x3a] ++ el ++ [x3b] ++ cmd; ts; cmd ]
                  else []
                else []
              | [] => []
              end
            else []
          else []
        | [] => []
        end
      else []
    else []
  | _ => []
  end.

(** The variables of the loop of [parseHistory]. ([lineNumber] is counted
    and never read.) *)
Record vars : Type := {
  allEntries : list HistoryEntry;
  currentCommand : list byte;       (* the [strings.Builder] *)
  currentTimestamp : Z
}.

(** The block that both the loop and the code after it run to close the
    command being built. *)
Definition finalize (v : vars) : list HistoryEntry :=
  if 0 <? len (currentCommand v) then
    let commandStr := ToValidUTF8 (TrimSpace (currentCommand v)) replacement in
    allEntries v ++ [ {| Timestamp := currentTimestamp v; Command := commandStr |} ]
  else allEntries v.

(** One turn of the loop [for scanner.Scan()]. *)
Definition scanStep (v : vars) (originalLineBytes : list byte) : vars :=
  let line := ensureValidUTF8 originalLineBytes in
  let match_ := FindStringSubmatch line in
  if len match_ =? 3 then
    let allEntries' := finalize v in
    {| allEntries := allEntries';
       currentTimestamp := fst (strconv.ParseInt (nth 1 match_ []));
       currentCommand := [] ++ ToValidUTF8 (nth 2 match_ []) replacement |}
  else if 0 <? len (currentCommand v) then
    let currentStr := currentCommand v in
    let nextLineStr := line in
    if HasSuffix currentStr [x5c] then
      {| allEntries := allEntries v;
         currentTimestamp := currentTimestamp v;
         currentCommand := ([] ++ slice currentStr 0 (len currentStr - 1)) ++ nextLineStr |}
    else
      {| allEntries := allEntries v;
         currentTimestamp := currentTimestamp v;
         currentCommand := (currentStr ++ [x0a]) ++ nextLineStr |}
  else v.

Definition initVars : vars :=
  {| allEntries := []; currentCommand := []; currentTimestamp := 0 |}.

(** [parseHistory]: the entries and the error. *)
Definition parseHistory (reader : Reader) : list HistoryEntry * option error :=
  let v := fold_left scanStep (lines reader) initVars in
  let allEntries' := finalize v in
  match readErr reader with
  | Some err => ([], Some (Errorf "error reading history data: %w" err))
  | None => (allEntries', None)
  end.

(** [entries[lo:]] *)
Definition slice_entries (entries : list HistoryEntry) (lo : Z) : list HistoryEntry :=
  skipn (Z.to_nat lo) entries.

(** [applyLimitFilter] *)
Definition applyLimitFilter (entries : list HistoryEntry) (limit : Z)
  : list HistoryEntry :=
  if (limit <=? 0) || (len entries <=? limit) then entries
  else
    let filtered := slice_entries entries (len entries - limit) in
    filtered.

(** [ReadHistory], from the result of [os.Open] on. *)
Definition ReadHistory (file : error + Reader) (limit : Z)
  : list HistoryEntry * option error :=
  match file with
  | inl err => ([], Some (Errorf "failed to open history file %s: %w" err))
  | inr reader =>
    let '(allEntries, err) := parseHistory reader in
    match err with
    | Some err => ([], Some err)
    | None =>
      let filteredEntries := applyLimitFilter allEntries limit in
      (filteredEntries, None)
    end
  end.

End history.

(** ** Well-formed UTF-8 *)

(** A continuation byte. *)
Definition cont (b : byte) : bool := (0x80 <=? u8 b) && (u8 b <=? 0xBF).

(** The well-formed UTF-8 byte sequences of one code point, as the Unicode
    standard tabulates them (Table 3-7). *)
Definition isEnc (e : list byte) : bool :=
  match e with
  | [b0] => u8 b0 <=? 0x7F
  | [b0; b1] => (0xC2 <=? u8 b0) && (u8 b0 <=? 0xDF) && cont b1
  | [b0; b1; b2] =>
    ((u8 b0 =? 0xE0) && (0xA0 <=? u8 b1) && (u8 b1 <=? 0xBF)
     || (0xE1 <=? u8 b0) && (u8 b0 <=? 0xEC) && cont b1
     || (u8 b0 =? 0xED) && (0x80 <=? u8 b1) && (u8 b1 <=? 0x9F)
     || (0xEE <=? u8 b0) && (u8 b0 <=? 0xEF) && cont b1)
    && cont b2
  | [b0; b1; b2; b3] =>
    ((u8 b0 =? 0xF0) && (0x90 <=? u8 b1) && (u8 b1 <=? 0xBF)
     || (0xF1 <=? u8 b0) && (u8 b0 <=? 0xF3) && cont b1
     || (u8 b0 =? 0xF4) && (0x80 <=? u8 b1) && (u8 b1 <=? 0x8F))
    && cont b2 && cont b3
  | _ => false
  end.

(** The code point of a well-formed sequence. *)
Definition runeOf (e : list byte) : Z := fst (utf8.DecodeRuneInString e).

(** A string is well formed when it is a concatenation of well-formed
    sequences. *)
Definition wf (s : list byte) : Prop :=
  exists es, Forall (fun e => isEnc e = true) es /\ s = concat es.

(** No well-formed sequence begins the string. *)
Definition invalidAt (s : list byte) : Prop :=
  forall e t, s = e ++ t -> isEnc e = false.

(** [sanitized inv s s']: [s'] is [s] with its well-formed sequences kept
    and each run of bytes that begin no well-formed sequence replaced by one
    U+FFFD. [inv] tells that such a run is under way at the front of [s]. *)
Inductive sanitized : bool -> list byte -> list byte -> Prop :=
| sanitized_nil inv : sanitized inv [] []
| sanitized_enc inv e s s' :
    isEnc e = true -> sanitized false s s' ->
    sanitized inv (e ++ s) (e ++ s')
| sanitized_bad inv b s s' :
    invalidAt (b :: s) -> sanitized true s s' ->
    sanitized inv (b :: s) ((if inv then [] else [xef; xbf; xbd]) ++ s').

(** A sequence that encodes a white space character. *)
Definition spaceEnc (e : list byte) : bool := unicode.IsSpace (runeOf e).

(** A list of sequences without its leading white space. *)
Fixpoint dropSpaces (es : list (list byte)) : list (list byte) :=
  match es with
  | [] => []
  | e :: es' => if spaceEnc e then dropSpaces es' else es
  end.

(** A list of sequences without its trailing white space. *)
Definition dropSpacesEnd (es : list (list byte)) : list (list byte) :=
  rev (dropSpaces (rev es)).

(** No sequence at the front of [c] encodes a white space character. *)
Definition noLeadingSpace (c : list byte) : Prop :=
  forall e t, c = e ++ t -> isEnc e = true -> unicode.IsSpace (runeOf e) = false.

(** No sequence at the end of [c] encodes a white space character. *)
Definition noTrailingSpace (c : list byte) : Prop :=
  forall p e, c = p ++ e -> isEnc e = true -> unicode.IsSpace (runeOf e) = false.

(** ** Header lines *)

(** A string of decimal digits, and the number it denotes. *)
Definition digits (s : list byte) : Prop :=
  Forall (fun b => history.isDigit b = true) s.

Definition decimalFrom (n : Z) (s : list byte) : Z :=
  fold_left (fun n b => n * 10 + (u8 b - 0x30)) s n.

Definition decimal (s : list byte) : Z := decimalFrom 0 s.

(** The text [: <ts>:<el>;<rest>]. *)
Definition headerText (ts el rest : list byte) : list byte :=
  [x3a; x20] ++ ts ++ [x3a] ++ el ++ [x3b] ++ rest.

(** A line is a header line with digit field [ts] and remainder [rest] when
    its text, as [ensureValidUTF8] returns it, is the marker, at least ten
    digits, a colon, at least one digit, a semicolon and a non-empty
    remainder. A line of the scanner holds no newline. *)
Definition headerLine (line ts rest : list byte) : Prop :=
  exists el,
    history.ensureValidUTF8 line = headerText ts el rest /\
    digits ts /\ 10 <= len ts /\ digits el /\ 1 <= len el /\
    rest <> [] /\ ~ In x0a rest.

(** The test of the loop: the pattern matches the line. *)
Definition isHeader (line : list byte) : bool :=
  len (history.FindStringSubmatch (history.ensureValidUTF8 line)) =? 3.

(** The largest [int64]. *)
Definition MaxInt64 : Z := 2 ^ 63 - 1.

(** The record that a header line with digit field [ts] and remainder
    [rest] stands for. *)
Definition entryOf (ts rest : list byte) : history.HistoryEntry :=
  {| history.Timestamp := fst (strconv.ParseInt ts);
     history.Command := strings.TrimSpace rest |}.

(** What the specification asks of the command of a record: it is
    well-formed UTF-8, which [utf8.Valid] accepts, and no white space
    character begins or ends it. *)
Definition cleanCommand (c : list byte) : Prop :=
  utf8.Valid c = true /\ wf c /\ noLeadingSpace c /\ noTrailingSpace c.

(** * The rest of the program

    The packages [internal/llm], [internal/config] and [internal/cli], as
    far as they compute: the calls to the Gemini service, to the
    environment and to the terminal are arguments of the functions below.
    What the logger writes is left out, as above. *)

(** ** strings, continued *)
Module strings_more.

(** [HasPrefix(s, prefix)] *)
Fixpoint HasPrefix (s prefix : list byte) : bool :=
  match prefix, s with
  | [], _ => true
  | _ :: _, [] => false
  | p :: prefix', c :: s' => Byte.eqb c p && HasPrefix s' prefix'
  end.

(** [Index(s, substr)] by what it returns, the index of the first instance
    of [substr] in [s] or [-1]; [s] is the rest of the string from [i] on.
    (The Go function looks for it faster.) *)
Fixpoint Index_from (s substr : list byte) (i : Z) : Z :=
  if HasPrefix s substr then i
  else match s with
       | [] => -1
       | _ :: s' => Index_from s' substr (i + 1)
       end.

Definition Index (s substr : list byte) : Z := Index_from s substr 0.

(** [Contains(s, substr)] *)
Definition Contains (s substr : list byte) : bool := 0 <=? Index s substr.

(** [Repeat(s, count)], for the counts that do not make it panic. *)
Definition Repeat (s : list byte) (count : Z) : list byte :=
  concat (repeat s (Z.to_nat count)).

End strings_more.

(** ** internal/llm *)
Module llm.
Import history.

(** An error is its text, what [Error()] returns: the code of these
    packages reads nothing else of an error. [errors.New(text)] is [text],
    and [fmt.Errorf] puts the text of the error it wraps in the place of
    the verb. *)
Definition error : Type := list byte.

Definition findHistoryContextLimit : Z := 150.
Definition suggestHistoryContextLimit : Z := 50.

(** The parts of the types of the [genai] library that the code reads.
    [BlockReason] and [FinishReason] are integers in the library. *)
Definition BlockReasonSafety : Z := 1.
Definition FinishReasonSafety : Z := 3.

Inductive Part : Type :=
| Text (text : list byte)
| OtherPart.                      (* [Blob] and the other parts *)

Record Content : Type := { Parts : list Part }.

Record Candidate : Type := {
  Content_ : option Content;      (* a pointer, which may be nil *)
  FinishReason : Z
}.

Record PromptFeedback : Type := { BlockReason : Z }.

Record GenerateContentResponse : Type := {
  Candidates : list Candidate;
  PromptFeedback_ : option PromptFeedback    (* a pointer, which may be nil *)
}.

(** What [c.model.GenerateContent] returns: an error, with a response or
    with nil, or a response and no error. *)
Inductive Generated : Type :=
| Failed (resp : option GenerateContentResponse) (err : error)
| Done (resp : GenerateContentResponse).

(** [formatHistoryContext], the loop: [i] runs from [startIdx] on. *)
Fixpoint formatLoop (fuel : nat) (historyContext : list HistoryEntry) (i : Z)
         (builder : list byte) : list byte :=
  match fuel with
  | O => builder
  | S fuel' =>
    if i <? len historyContext then
      let builder :=
        builder ++ Command (nth (Z.to_nat i) historyContext
                                {| Timestamp := 0; Command := [] |}) in
      let builder := builder ++ [x0a] in
      formatLoop fuel' historyContext (i + 1) builder
    else builder
  end.

(** [formatHistoryContext] *)
Definition formatHistoryContext (header : list byte)
           (historyContext : list HistoryEntry) (maxEntries : Z) : list byte :=
  if len historyContext =? 0 then
    str "No specific user history context provided." ++ [x0a; x0a]
  else
    let builder := [] in
    let builder := builder ++ (header ++ str ":" ++ [x0a]) in
    let builder :=
      builder ++ (strings_more.Repeat (str "-") (len header + 1) ++ [x0a]) in
    let startIdx := 0 in
    let startIdx :=
      if (0 <? maxEntries) && (maxEntries <? len historyContext)
      then len historyContext - maxEntries else startIdx in
    let builder :=
      formatLoop (length historyContext) historyContext startIdx builder in
    let builder :=
      builder ++ (strings_more.Repeat (str "-") (len header + 1) ++ [x0a; x0a]) in
    builder.

(** [buildFindPrompt] *)
Definition buildFindPrompt (query : list byte)
           (historyContext : list HistoryEntry) : list byte :=
  if len historyContext =? 0 then []
  else
    let promptBuilder := [] in
    let promptBuilder := promptBuilder ++ (str "You are an expert shell history analyzer." ++ [x0a]) in
    let promptBuilder := promptBuilder ++ (str "The user is searching their shell history for commands based on a description." ++ [x0a]) in
    let promptBuilder := promptBuilder ++ (str "User's search query: " ++ [x22] ++ query ++ [x22; x0a; x0a]) in
    let promptBuilder := promptBuilder ++ (str "Please analyze the following shell history entries. Return ONLY the command text of the entry or entries that BEST match the user's query. If multiple commands are good matches, list each matching command on a new line." ++ [x0a]) in
    let promptBuilder := promptBuilder ++ (str "If NO history entries strongly match the query, return the exact phrase: 'No relevant commands found.'" ++ [x0a; x0a]) in
    let promptBuilder :=
      promptBuilder ++ formatHistoryContext (str "Shell History Entries Provided") historyContext findHistoryContextLimit in
    let promptBuilder := promptBuilder ++ (str "Matching command(s) from the history above:" ++ [x0a]) in
    promptBuilder.

(** [buildSuggestPrompt] *)
Definition buildSuggestPrompt (taskDescription : list byte)
           (historyContext : list HistoryEntry) : list byte :=
  let promptBuilder := [] in
  let promptBuilder := promptBuilder ++ (str "You are an AI assistant expert in generating safe and useful POSIX-compliant shell commands (like for Linux or macOS)." ++ [x0a]) in
  let promptBuilder := promptBuilder ++ (str "The user wants a shell command to accomplish the following task:" ++ [x0a]) in
  let promptBuilder := promptBuilder ++ (str "Task: " ++ [x22] ++ taskDescription ++ [x22; x0a; x0a]) in
  let promptBuilder :=
    promptBuilder ++ formatHistoryContext (str "Recent History Context (Optional)") historyContext suggestHistoryContextLimit in
  let promptBuilder := promptBuilder ++ (str "Instructions for generating the command:" ++ [x0a]) in
  let promptBuilder := promptBuilder ++ (str "1. Generate one or more shell commands that directly address the user's task." ++ [x0a]) in
  let promptBuilder := promptBuilder ++ (str "2. **Prioritize Safety:** Avoid suggesting potentially destructive commands (like `rm -rf /`, `dd`, etc.) unless absolutely necessary for the task AND explicitly confirmed by the user's request phrasing. If suggesting a command with potential side effects (e.g., modifying files, deleting data), add a brief `# Warning: This command modifies/deletes...` comment before it." ++ [x0a]) in
  let promptBuilder := promptBuilder ++ (str "3. Provide ONLY the raw command(s), each on a new line." ++ [x0a]) in
  let promptBuilder := promptBuilder ++ (str "4. If multiple steps or commands are needed, list them sequentially." ++ [x0a]) in
  let promptBuilder := promptBuilder ++ (str "5. If the task is ambiguous, too complex for a simple command, or cannot be safely achieved, respond with the exact phrase: 'Cannot suggest a command for this task.'" ++ [x0a; x0a]) in
  let promptBuilder := promptBuilder ++ (str "Suggested Command(s):" ++ [x0a]) in
  promptBuilder.

(** [extractTextFromResponse], the loop over the parts. *)
Fixpoint extractLoop (parts : list Part) (result : list byte) : list byte :=
  match parts with
  | [] => result
  | part :: parts' =>
    match part with
    | Text text => extractLoop parts' (result ++ text)
    | OtherPart => extractLoop parts' result
    end
  end.

(** [extractTextFromResponse] *)
Definition extractTextFromResponse (resp : option GenerateContentResponse)
  : list byte :=
  match resp with
  | None => []
  | Some resp =>
    match Candidates resp with
    | [] => []
    | c0 :: _ =>
      match Content_ c0 with
      | None => []
      | Some content =>
        if len (Parts content) =? 0 then []
        else extractLoop (Parts content) []
      end
    end
  end.

Section Client.

(** [BlockReason.String()] of the library. *)
Variable BlockReason_String : Z -> list byte.

(** [c.model.GenerateContent(ctx, genai.Text(prompt))] *)
Variable GenerateContent : list byte -> Generated.

(** [generateGeminiContent]: the text and the error. *)
Definition generateGeminiContent (prompt : list byte) : list byte * option error :=
  match GenerateContent prompt with
  | Failed resp err =>
    match resp with
    | Some r =>
      match PromptFeedback_ r with
      | Some fb =>
        if BlockReason fb =? BlockReasonSafety
        then ([], Some (str "prompt blocked due to safety settings (Reason: " ++ BlockReason_String (BlockReason fb) ++ str ")"))
        else ([], Some (str "API call error: " ++ err))
      | None => ([], Some (str "API call error: " ++ err))
      end
    | None => ([], Some (str "API call error: " ++ err))
    end
  | Done resp =>
    let next (_ : unit) :=
      let next (_ : unit) :=
        let aiResponseText := extractTextFromResponse (Some resp) in
        if strings.eqb aiResponseText [] then ([], None)
        else (aiResponseText, None) in
      match Candidates resp with
      | c0 :: _ =>
        if FinishReason c0 =? FinishReasonSafety
        then ([], Some (str "response blocked due to safety settings"))
        else next tt
      | [] => next tt
      end in
    match PromptFeedback_ resp with
    | Some fb =>
      if BlockReason fb =? BlockReasonSafety
      then ([], Some (str "prompt blocked due to safety settings (Reason: " ++ BlockReason_String (BlockReason fb) ++ str ")"))
      else next tt
    | None => next tt
    end
  end.

(** [FindHistoryEntries] *)
Definition FindHistoryEntries (query : list byte)
           (historyContext : list HistoryEntry) : list byte * option error :=
  let prompt := buildFindPrompt query historyContext in
  if strings.eqb prompt [] then (str "(No relevant commands found or AI response was empty)", None)
  else
    let '(result, err) := generateGeminiContent prompt in
    match err with
    | Some err => ([], Some (str "gemini API call failed (Find): " ++ err))
    | None =>
      if strings.eqb result [] || strings.eqb result (str "No relevant commands found.")
      then (str "(No relevant commands found or AI response was empty)", None)
      else (result, None)
    end.

(** [SuggestCommands] *)
Definition SuggestCommands (taskDescription : list byte)
           (historyContext : list HistoryEntry) : list byte * option error :=
  let prompt := buildSuggestPrompt taskDescription historyContext in
  let '(result, err) := generateGeminiContent prompt in
  match err with
  | Some err =>
    if strings_more.Contains err (str "blocked due to safety settings")
    then ([], Some (str "suggestion blocked due to safety settings"))
    else ([], Some (str "gemini API call failed (Suggest): " ++ err))
  | None =>
    if strings.eqb result [] || strings.eqb result (str "Cannot suggest a command for this task.")
    then (str "(AI could not suggest a command for this task or the response was empty)", None)
    else (result, None)
  end.

End Client.

Section NewClient.

(** The client of the library, and [genai.NewClient] with the API key as
    its option. *)
Variable Client : Type.
Variable NewClient : list byte -> Client + error.

(** [GeminiClient], without its logger; its model is that of
    [defaultModelName], with the default safety settings. *)
Record GeminiClient : Type := { client : Client }.

(** [NewGeminiClient] *)
Definition NewGeminiClient (apiKey : list byte) : GeminiClient + error :=
  if strings.eqb apiKey [] then inr (str "google AI (Gemini) API key is required")
  else
    match NewClient apiKey with
    | inr err => inr (str "failed to create genai client: " ++ err)
    | inl client => inl {| client := client |}
    end.

End NewClient.

End llm.

(** ** internal/config *)
Module config.

Definition EnvGoogleAPIKey : list byte := str "GOOGLE_API_KEY".

Record Config : Type := { GoogleAPIKey : list byte }.

(** [LoadConfig]; [Getenv] is [os.Getenv]. *)
Definition LoadConfig (Getenv : list byte -> list byte) : Config + llm.error :=
  let apiKey := Getenv EnvGoogleAPIKey in
  if strings.eqb apiKey [] then
    inr (str "required environment variable " ++ EnvGoogleAPIKey ++ str " is not set")
  else
    let cfg := {| GoogleAPIKey := apiKey |} in
    inl cfg.

End config.

(** ** internal/cli *)
Module cli.

(** The keys of [knownFailureMessages], a map used as a set. *)
Definition knownFailureMessages : list (list byte) :=
  [ [];
    str "(No relevant commands found or AI response was empty)";
    str "No relevant commands found.";
    str "(AI could not suggest a command for this task or the response was empty)";
    str "Cannot suggest a command for this task.";
    str "suggestion blocked due to safety settings" ].

(** What the program prints: a line, on one of the two streams, in a
    colour of package [color] or in none. *)
Inductive File : Type := Stdout | Stderr.
Inductive Colour : Type := NoColour | FgYellow | FgGreen.
Record Println : Type := { file : File; colour : Colour; line : list byte }.

(** [printCommandOutput]: the lines it prints or tries to print, and the
    error. [write] tells which of them fail, with which error. *)
Definition printCommandOutput (write : Println -> option llm.error)
           (output header logOnFailure : list byte)
  : list Println * option llm.error :=
  let trimmedOutput := strings.TrimSpace output in
  let isKnownFailure := existsb (strings.eqb trimmedOutput) knownFailureMessages in
  if negb isKnownFailure then
    let p1 := {| file := Stderr; colour := FgYellow; line := [x0a] ++ header |} in
    match write p1 with
    | Some err => ([p1], Some err)
    | None =>
      let p2 := {| file := Stdout; colour := FgGreen; line := trimmedOutput |} in
      match write p2 with
      | Some err => ([p1; p2], Some err)
      | None => ([p1; p2], None)
      end
    end
  else
    let p := {| file := Stderr; colour := NoColour; line := trimmedOutput |} in
    match write p with
    | Some err => ([p], Some err)
    | None => ([p], None)
    end.

(** An error of the commands: the text of an error of [config] or of
    [llm], an error of [history], or what [fmt.Errorf] makes of a format
    with [%w] and an error. *)
Inductive error : Type :=
| Text (text : llm.error)
| History (err : history.error)
| Errorf (format : string) (err : error).

Definition defaultFindHistoryLimit : Z := 300.
Definition defaultSuggestHistoryContextLimit : Z := 100.

Section Run.

(** [os.Getenv]. *)
Variable Getenv : list byte -> list byte.

(** [history.NewZshHistoryReader(logger)], and what [os.Open] gives for the
    history file of a reader when [ReadHistory] opens it. *)
Variable ZshHistoryReader : Type.
Variable NewZshHistoryReader : ZshHistoryReader + error.
Variable Open : ZshHistoryReader -> history.error + history.Reader.

(** The client of the library, [genai.NewClient], [BlockReason.String()]
    and [GenerateContent] on the model of a client. *)
Variable Client : Type.
Variable NewClient : list byte -> Client + llm.error.
Variable BlockReason_String : Z -> list byte.
Variable GenerateContent : Client -> list byte -> llm.Generated.

(** [runFind]; the deferred [Close] of the client only logs. *)
Definition runFind (query : list byte) (limit : Z) : list byte * option error :=
  match config.LoadConfig Getenv with
  | inr err => ([], Some (Errorf "failed to load configuration: %w" (Text err)))
  | inl cfg =>
    match NewZshHistoryReader with
    | inr err => ([], Some (Errorf "failed to initialize history reader: %w" err))
    | inl historyReader =>
      let '(historyEntries, err) := history.ReadHistory (Open historyReader) limit in
      match err with
      | Some err => ([], Some (Errorf "failed to read history: %w" (History err)))
      | None =>
        match llm.NewGeminiClient Client NewClient (config.GoogleAPIKey cfg) with
        | inr err => ([], Some (Errorf "failed to initialize LLM client: %w" (Text err)))
        | inl llmClient =>
          let '(result, err) :=
            llm.FindHistoryEntries BlockReason_String
              (GenerateContent (llm.client Client llmClient)) query historyEntries in
          match err with
          | Some err => ([], Some (Errorf "failed to get results from LLM: %w" (Text err)))
          | None => (result, None)
          end
        end
      end
    end
  end.

(** [runSuggestCore] *)
Definition runSuggestCore (query : list byte) (limit : Z) (noHistoryContext : bool)
  : list byte * option error :=
  match config.LoadConfig Getenv with
  | inr err => ([], Some (Errorf "failed to load configuration: %w" (Text err)))
  | inl cfg =>
    let next (historyEntries : list history.HistoryEntry) :=
      match llm.NewGeminiClient Client NewClient (config.GoogleAPIKey cfg) with
      | inr err => ([], Some (Errorf "failed to initialize LLM client: %w" (Text err)))
      | inl llmClient =>
        let '(suggestions, err) :=
          llm.SuggestCommands BlockReason_String
            (GenerateContent (llm.client Client llmClient)) query historyEntries in
        match err with
        | Some err => ([], Some (Errorf "failed to get suggestions from LLM: %w" (Text err)))
        | None => (suggestions, None)
        end
      end in
    if negb noHistoryContext then
      match NewZshHistoryReader with
      | inr err =>
        ([], Some (Errorf "failed to initialize history reader for context: %w" err))
      | inl historyReader =>
        let '(historyEntries, err) := history.ReadHistory (Open historyReader) limit in
        match err with
        | Some err => ([], Some (Errorf "failed to read history for context: %w" (History err)))
        | None => next historyEntries
        end
      end
    else next []
  end.

End Run.

End cli.

(** ** Notions for the properties of the rest of the program *)

(** The variables of the loop with [before] in front of their entries. *)
Definition withEntriesBefore (before : list history.HistoryEntry)
           (v : history.vars) : history.vars :=
  {| history.allEntries := before ++ history.allEntries v;
     history.currentCommand := history.currentCommand v;
     history.currentTimestamp := history.currentTimestamp v |}.

(** The commands of the entries, a newline after each. *)
Definition commandLines (entries : list history.HistoryEntry) : list byte :=
  concat (map (fun e => history.Command e ++ [x0a]) entries).

(** The service reports a block for safety: in the feedback on the prompt,
    with or without an error, or as the finish reason of the first
    candidate. *)
Definition feedbackSafety (fb : option llm.PromptFeedback) : bool :=
  match fb with
  | Some fb => llm.BlockReason fb =? llm.BlockReasonSafety
  | None => false
  end.

Definition safetyBlocked (g : llm.Generated) : bool :=
  match g with
  | llm.Failed (Some r) _ => feedbackSafety (llm.PromptFeedback_ r)
  | llm.Failed None _ => false
  | llm.Done r =>
    feedbackSafety (llm.PromptFeedback_ r)
    || match llm.Candidates r with
       | c0 :: _ => llm.FinishReason c0 =? llm.FinishReasonSafety
       | [] => false
       end
  end.

(** The lines printed on the standard output. *)
Definition onStdout (ps : list cli.Println) : list (list byte) :=
  map cli.line
      (filter (fun p => match cli.file p with cli.Stdout => true | cli.Stderr => false end)
              ps).

(** A byte of ASCII white space. *)
Definition asciiWhite (b : byte) : Prop := strings.asciiSpace b = 1.

(** The texts of the parts that are texts, one after the other. *)
Definition textsOf (parts : list llm.Part) : list byte :=
  concat (map (fun part => match part with
                           | llm.Text text => text
                           | llm.OtherPart => []
                           end) parts).

Lemma u8_range b : 0 <= u8 b < 256.
Proof.
  unfold u8. pose proof (Byte.to_N_bounded b). lia.
Qed.

Lemma len_nil {A} : len (@nil A) = 0.
Proof. reflexivity. Qed.

Lemma len_cons {A} (a : A) s : len (a :: s) = len s + 1.
Proof. unfold len. simpl length. lia. Qed.

Lemma len_app {A} (s t : list A) : len (s ++ t) = len s + len t.
Proof. unfold len. rewrite length_app. lia. Qed.

Lemma len_nonneg {A} (s : list A) : 0 <= len s.
Proof. unfold len. lia. Qed.

Lemma decode_ascii b t :
  u8 b < 0x80 -> utf8.DecodeRuneInString (b :: t) = (u8 b, 1).
Proof.
  intros Hb. pose proof (u8_range b).
  unfold utf8.DecodeRuneInString, utf8.first.
  cbv zeta.
  destruct (Z.leb_spec (u8 b) 127); [|lia].
  change (utf8.as_ <=? utf8.as_) with true. cbv iota.
  change (Z.shiftr (utf8.int32 (Z.shiftl utf8.as_ 31)) 31) with 0.
  change (Z.lnot 0) with (-1).
  rewrite Z.land_m1_r, Z.land_0_r, Z.lor_0_r. reflexivity.
Qed.


Local Opaque u8.

Lemma first_cases b :
  (u8 b <= 0x7F /\ utf8.first b = utf8.as_) \/
  ((0x80 <= u8 b <= 0xC1 \/ 0xF5 <= u8 b) /\ utf8.first b = utf8.xx) \/
  (0xC2 <= u8 b <= 0xDF /\ utf8.first b = utf8.s1) \/
  (u8 b = 0xE0 /\ utf8.first b = utf8.s2) \/
  ((0xE1 <= u8 b <= 0xEC \/ 0xEE <= u8 b <= 0xEF) /\ utf8.first b = utf8.s3) \/
  (u8 b = 0xED /\ utf8.first b = utf8.s4) \/
  (u8 b = 0xF0 /\ utf8.first b = utf8.s5) \/
  (0xF1 <= u8 b <= 0xF3 /\ utf8.first b = utf8.s6) \/
  (u8 b = 0xF4 /\ utf8.first b = utf8.s7).
Proof.
  pose proof (u8_range b). unfold utf8.first. cbv zeta.
  repeat match goal with
  | |- context [Z.leb ?a ?c] => destruct (Z.leb_spec a c)
  | |- context [Z.eqb ?a ?c] => destruct (Z.eqb_spec a c)
  end; intuition lia.
Qed.

Ltac first_case b :=
  let H := fresh "Hf" in
  let E := fresh "Ef" in
  destruct (first_cases b) as
    [[H E]|[[H E]|[[H E]|[[H E]|[[H E]|[[H E]|[[H E]|[[H E]|[H E]]]]]]]]];
  rewrite ?E in *.

(* decide a comparison of the goal or of a hypothesis *)
Ltac zcase :=
  match goal with
  | |- context [Z.leb ?a ?b] => destruct (Z.leb_spec a b); try lia
  | |- context [Z.ltb ?a ?b] => destruct (Z.ltb_spec a b); try lia
  | |- context [Z.eqb ?a ?b] => destruct (Z.eqb_spec a b); try lia
  | H : context [Z.leb ?a ?b] |- _ => destruct (Z.leb_spec a b); try lia
  | H : context [Z.ltb ?a ?b] |- _ => destruct (Z.ltb_spec a b); try lia
  | H : context [Z.eqb ?a ?b] |- _ => destruct (Z.eqb_spec a b); try lia
  end.


(* the entries of the tables, at each value of [first] *)
Ltac norm_first :=
  change (utf8.as_ <=? utf8.as_) with true in *;
  change (utf8.as_ <=? utf8.xx) with true in *;
  change (utf8.as_ <=? utf8.s1) with false in *;
  change (utf8.as_ <=? utf8.s2) with false in *;
  change (utf8.as_ <=? utf8.s3) with false in *;
  change (utf8.as_ <=? utf8.s4) with false in *;
  change (utf8.as_ <=? utf8.s5) with false in *;
  change (utf8.as_ <=? utf8.s6) with false in *;
  change (utf8.as_ <=? utf8.s7) with false in *;
  change (utf8.as_ =? utf8.xx) with false in *;
  change (utf8.xx =? utf8.xx) with true in *;
  change (utf8.s1 =? utf8.xx) with false in *;
  change (utf8.s2 =? utf8.xx) with false in *;
  change (utf8.s3 =? utf8.xx) with false in *;
  change (utf8.s4 =? utf8.xx) with false in *;
  change (utf8.s5 =? utf8.xx) with false in *;
  change (utf8.s6 =? utf8.xx) with false in *;
  change (utf8.s7 =? utf8.xx) with false in *;
  change (Z.shiftr (utf8.int32 (Z.shiftl utf8.as_ 31)) 31) with 0 in *;
  change (Z.shiftr (utf8.int32 (Z.shiftl utf8.xx 31)) 31) with (-1) in *;
  change (Z.land utf8.s1 7) with 2 in *;
  change (Z.land utf8.s2 7) with 3 in *;
  change (Z.land utf8.s3 7) with 3 in *;
  change (Z.land utf8.s4 7) with 3 in *;
  change (Z.land utf8.s5 7) with 4 in *;
  change (Z.land utf8.s6 7) with 4 in *;
  change (Z.land utf8.s7 7) with 4 in *;
  change (utf8.acceptRanges (Z.shiftr utf8.s1 4)) with (0x80, 0xBF) in *;
  change (utf8.acceptRanges (Z.shiftr utf8.s2 4)) with (0xA0, 0xBF) in *;
  change (utf8.acceptRanges (Z.shiftr utf8.s3 4)) with (0x80, 0xBF) in *;
  change (utf8.acceptRanges (Z.shiftr utf8.s4 4)) with (0x80, 0x9F) in *;
  change (utf8.acceptRanges (Z.shiftr utf8.s5 4)) with (0x90, 0xBF) in *;
  change (utf8.acceptRanges (Z.shiftr utf8.s6 4)) with (0x80, 0xBF) in *;
  change (utf8.acceptRanges (Z.shiftr utf8.s7 4)) with (0x80, 0x8F) in *;
  change (2 <=? 2) with true in *; change (3 <=? 2) with false in *;
  change (4 <=? 2) with false in *; change (3 <=? 3) with true in *;
  change (4 <=? 3) with false in *;
  change (2 =? 2) with true in *; change (3 =? 2) with false in *;
  change (4 =? 2) with false in *; change (3 =? 3) with true in *;
  change (4 =? 3) with false in *;
  change utf8.locb with 0x80 in *; change utf8.hicb with 0xBF in *;
  change utf8.RuneSelf with 0x80 in *;
  cbv beta iota zeta in *; cbn [fst snd] in *.

Ltac zsolve :=
  repeat first
    [ progress (cbn [orb andb negb fst snd] in * )
    | progress (cbv beta iota in * )
    | discriminate
    | reflexivity
    | zcase ].


Lemma decode_nil : utf8.DecodeRuneInString [] = (utf8.RuneError, 0).
Proof. reflexivity. Qed.

(** On a well-formed sequence, whatever follows it, [DecodeRuneInString]
    returns its code point and its length. *)
Lemma decode_enc e t :
  isEnc e = true ->
  utf8.DecodeRuneInString (e ++ t) = (runeOf e, len e).
Proof.
  destruct e as [|b0 [|b1 [|b2 [|b3 [|b4 e]]]]]; try discriminate;
    unfold runeOf, isEnc, cont, utf8.DecodeRuneInString; cbn [app];
    rewrite ?len_cons; pose proof (len_nonneg t); change (len (@nil byte)) with 0;
    intros He; first_case b0; norm_first; zsolve.
Qed.

Ltac inv_left Hd :=
  injection Hd as <- <-; left; repeat split; first [reflexivity | lia].

Ltac inv_right e t :=
  right; exists e, t; split; [reflexivity | unfold isEnc, cont; zsolve].

(** What [DecodeRuneInString] returns on a non-empty string: an invalid
    first byte, of width 1, or a well-formed sequence at the front. *)
Lemma decode_inv b0 t r w :
  utf8.DecodeRuneInString (b0 :: t) = (r, w) ->
  (w = 1 /\ 0x80 <= u8 b0 /\ r = utf8.RuneError) \/
  (exists e t', b0 :: t = e ++ t' /\ isEnc e = true).
Proof.
  unfold utf8.DecodeRuneInString. rewrite ?len_cons. pose proof (len_nonneg t).
  intros Hd. first_case b0; norm_first.
  - inv_right [b0] t.
  - change (Z.lnot (-1)) with 0 in Hd.
    change (Z.land utf8.RuneError (-1)) with utf8.RuneError in Hd.
    rewrite Z.land_0_r, Z.lor_0_l in Hd. inv_left Hd.
  - destruct t as [|b1 t1]; [zsolve; inv_left Hd|].
    zsolve; try (inv_left Hd). inv_right [b0; b1] t1.
  - destruct t as [|b1 [|b2 t2]]; rewrite ?len_cons in *;
      change (len (@nil byte)) with 0 in *; zsolve; try (inv_left Hd).
    inv_right [b0; b1; b2] t2.
  - destruct t as [|b1 [|b2 t2]]; rewrite ?len_cons in *;
      change (len (@nil byte)) with 0 in *; zsolve; try (inv_left Hd).
    all: inv_right [b0; b1; b2] t2.
  - destruct t as [|b1 [|b2 t2]]; rewrite ?len_cons in *;
      change (len (@nil byte)) with 0 in *; zsolve; try (inv_left Hd).
    inv_right [b0; b1; b2] t2.
  - destruct t as [|b1 [|b2 [|b3 t3]]]; rewrite ?len_cons in *;
      change (len (@nil byte)) with 0 in *; zsolve; try (inv_left Hd).
    inv_right [b0; b1; b2; b3] t3.
  - destruct t as [|b1 [|b2 [|b3 t3]]]; rewrite ?len_cons in *;
      change (len (@nil byte)) with 0 in *; zsolve; try (inv_left Hd).
    inv_right [b0; b1; b2; b3] t3.
  - destruct t as [|b1 [|b2 [|b3 t3]]]; rewrite ?len_cons in *;
      change (len (@nil byte)) with 0 in *; zsolve; try (inv_left Hd).
    inv_right [b0; b1; b2; b3] t3.
Qed.

Lemma skipn_len_app (e t : list byte) : skipn (Z.to_nat (len e)) (e ++ t) = t.
Proof.
  unfold len. rewrite Nat2Z.id, skipn_app, skipn_all, Nat.sub_diag. reflexivity.
Qed.

Lemma firstn_len_app (e t : list byte) : firstn (Z.to_nat (len e)) (e ++ t) = e.
Proof.
  unfold len. rewrite Nat2Z.id, firstn_app, firstn_all, Nat.sub_diag.
  cbn [firstn]. apply app_nil_r.
Qed.

Lemma enc_len e : isEnc e = true -> 1 <= len e <= 4.
Proof.
  destruct e as [|b0 [|b1 [|b2 [|b3 [|b4 e]]]]]; try discriminate;
    intros _; rewrite ?len_cons; change (len (@nil byte)) with 0; lia.
Qed.

Lemma enc_nonempty e : isEnc e = true -> e <> [].
Proof. destruct e; [discriminate | congruence]. Qed.

(** A well-formed sequence that starts or ends with an ASCII byte is that
    byte alone. *)
Lemma enc_ascii_head b e : isEnc (b :: e) = true -> u8 b < 0x80 -> e = [].
Proof.
  destruct e as [|b1 [|b2 [|b3 [|b4 e]]]]; try discriminate; try reflexivity;
    unfold isEnc, cont; intros He Hb; zsolve.
Qed.

Lemma enc_ascii_last e b : isEnc (e ++ [b]) = true -> u8 b < 0x80 -> e = [].
Proof.
  destruct e as [|b0 [|b1 [|b2 [|b3 e]]]]; try reflexivity; cbn [app];
    try (destruct e; discriminate); unfold isEnc, cont; intros He Hb; zsolve.
Qed.

Lemma enc_single b : u8 b < 0x80 -> isEnc [b] = true.
Proof. intros Hb. unfold isEnc. zsolve. Qed.

Lemma enc_head_ascii_or_lead b e :
  isEnc (b :: e) = true -> u8 b < 0x80 \/ 0xC2 <= u8 b.
Proof.
  destruct e as [|b1 [|b2 [|b3 [|b4 e]]]]; try discriminate;
    unfold isEnc, cont; intros He; zsolve; lia.
Qed.

(** ** Well-formed strings *)

Lemma wf_nil : wf [].
Proof. exists []. split; [constructor | reflexivity]. Qed.

Lemma wf_enc_app e s : isEnc e = true -> wf s -> wf (e ++ s).
Proof.
  intros He (es & Hes & ->). exists (e :: es). split; [constructor; assumption | reflexivity].
Qed.

Lemma wf_app s t : wf s -> wf t -> wf (s ++ t).
Proof.
  intros (es & Hes & ->) (et & Het & ->). exists (es ++ et). split.
  - apply Forall_app. split; assumption.
  - symmetry. apply concat_app.
Qed.

Lemma wf_enc e : isEnc e = true -> wf e.
Proof. intros He. rewrite <- (app_nil_r e). apply wf_enc_app; [assumption | apply wf_nil]. Qed.

Lemma wf_cons_ascii b s : u8 b < 0x80 -> wf s -> wf (b :: s).
Proof. intros Hb Hs. apply (wf_enc_app [b]); [apply enc_single; assumption | assumption]. Qed.

(** The induction principle of well-formed strings. *)
Lemma wf_ind' (P : list byte -> Prop) :
  P [] ->
  (forall e s, isEnc e = true -> wf s -> P s -> P (e ++ s)) ->
  forall s, wf s -> P s.
Proof.
  intros Hnil Hstep s (es & Hes & ->).
  induction Hes as [|e es He Hes IH]; cbn [concat].
  - exact Hnil.
  - apply Hstep; [assumption | exists es; split; [assumption | reflexivity] | assumption].
Qed.

Lemma wf_inv s :
  wf s -> s = [] \/ exists e t, s = e ++ t /\ isEnc e = true /\ wf t.
Proof.
  intros Hs. induction Hs as [|e t He Ht _] using wf_ind'.
  - left; reflexivity.
  - right. exists e, t. repeat split; assumption.
Qed.

Lemma wf_inv_cons_ascii b s : wf (b :: s) -> u8 b < 0x80 -> wf s.
Proof.
  intros Hw Hb. destruct (wf_inv _ Hw) as [Hn | (e & t & Heq & He & Ht)]; [discriminate|].
  destruct e as [|b' e]; [discriminate|]. cbn [app] in Heq.
  injection Heq as <- ->.
  rewrite (enc_ascii_head _ _ He Hb). exact Ht.
Qed.

Lemma wf_inv_app_ascii a s :
  Forall (fun b => u8 b < 0x80) a -> wf (a ++ s) -> wf s.
Proof.
  induction 1 as [|b a Hb Ha IH]; cbn [app]; intros Hw; [assumption|].
  apply IH. eapply wf_inv_cons_ascii; eassumption.
Qed.

Lemma wf_ascii a : Forall (fun b => u8 b < 0x80) a -> wf a.
Proof.
  induction 1 as [|b a Hb Ha IH]; [apply wf_nil | apply wf_cons_ascii; assumption].
Qed.

Lemma wf_inv_snoc_ascii s b : wf (s ++ [b]) -> u8 b < 0x80 -> wf s.
Proof.
  intros Hw Hb. remember (s ++ [b]) as x eqn:Hx. revert s Hx.
  induction Hw as [|e t He Ht IH] using wf_ind'; intros s Hx.
  - destruct s; discriminate.
  - destruct t as [|c t0].
    + rewrite app_nil_r in Hx. subst e.
      rewrite (enc_ascii_last _ _ He Hb). apply wf_nil.
    + destruct (@exists_last _ (c :: t0)) as (t' & b' & Et); [discriminate|].
      rewrite Et in *. rewrite app_assoc in Hx. apply app_inj_tail in Hx as [<- <-].
      apply wf_enc_app; [assumption|]. apply IH. reflexivity.
Qed.

(** ** [utf8.Valid] accepts the well-formed strings *)

(** One turn of the loop of [Valid], in terms of [DecodeRuneInString]. *)
Lemma Valid_step fuel b0 t :
  utf8.Valid_loop (S fuel) (b0 :: t) =
  let '(_, w) := utf8.DecodeRuneInString (b0 :: t) in
  if (w =? 1) && (0x80 <=? u8 b0) then false
  else utf8.Valid_loop fuel (skipn (Z.to_nat w) (b0 :: t)).
Proof.
  cbn [utf8.Valid_loop]. unfold utf8.DecodeRuneInString, at_.
  rewrite ?len_cons. pose proof (len_nonneg t).
  change (Z.to_nat 1) with 1%nat. change (Z.to_nat 2) with 2%nat.
  change (Z.to_nat 3) with 3%nat.
  destruct t as [|b1 [|b2 [|b3 t3]]]; rewrite ?len_cons in *;
    change (len (@nil byte)) with 0 in *; cbn [nth];
    first_case b0; norm_first;
    change (Z.to_nat 4) with 4%nat; change (Z.to_nat 2) with 2%nat;
    change (Z.to_nat 3) with 3%nat; change (Z.to_nat 1) with 1%nat; zsolve.
Qed.

(** The two outcomes of decoding at the front of a non-empty string. *)
Lemma decode_dec b0 t :
  (utf8.DecodeRuneInString (b0 :: t) = (utf8.RuneError, 1) /\ 0x80 <= u8 b0) \/
  (exists e t', b0 :: t = e ++ t' /\ isEnc e = true /\
                utf8.DecodeRuneInString (b0 :: t) = (runeOf e, len e)).
Proof.
  destruct (utf8.DecodeRuneInString (b0 :: t)) as [r w] eqn:Hd.
  destruct (decode_inv _ _ _ _ Hd) as [(-> & Hb & ->) | (e & t' & Heq & He)].
  - left. split; [reflexivity | assumption].
  - right. exists e, t'. repeat split; try assumption.
    rewrite <- Hd, Heq. apply decode_enc. assumption.
Qed.

Lemma enc_width_1 b e : isEnc (b :: e) = true -> len (b :: e) = 1 -> u8 b < 0x80.
Proof.
  destruct e as [|b1 e']; rewrite ?len_cons.
  - unfold isEnc. intros He _. zsolve.
  - pose proof (len_nonneg e'). lia.
Qed.

Lemma Valid_loop_wf fuel : forall s,
  (length s <= fuel)%nat -> utf8.Valid_loop fuel s = true -> wf s.
Proof.
  induction fuel as [|fuel IH]; intros s Hlen Hv.
  - destruct s; [apply wf_nil | cbn in Hlen; lia].
  - destruct s as [|b0 t]; [apply wf_nil|].
    rewrite Valid_step in Hv.
    destruct (decode_dec b0 t) as [[Hd Hb] | (e & t' & Heq & He & Hd)];
      rewrite Hd in Hv.
    + zsolve.
    + rewrite Heq. apply wf_enc_app; [assumption|]. apply IH.
      * apply (f_equal (@length byte)) in Heq. rewrite length_app in Heq.
        cbn [length] in *. pose proof (enc_len _ He). unfold len in *. lia.
      * rewrite Heq, skipn_len_app in Hv.
        destruct ((len e =? 1) && (0x80 <=? u8 b0)); [discriminate | assumption].
Qed.

Lemma wf_Valid_loop s :
  wf s -> forall fuel, (length s <= fuel)%nat -> utf8.Valid_loop fuel s = true.
Proof.
  intros Hs. induction Hs as [|e t He Ht IH] using wf_ind'; intros fuel Hlen.
  - destruct fuel; reflexivity.
  - destruct e as [|b0 e']; [discriminate|].
    destruct fuel as [|fuel]; [cbn in Hlen; lia|].
    cbn [app]. rewrite Valid_step.
    change (b0 :: e' ++ t) with ((b0 :: e') ++ t).
    rewrite (decode_enc _ t He), skipn_len_app.
    rewrite length_app in Hlen. cbn [length] in Hlen.
    rewrite IH by lia.
    destruct (Z.eqb_spec (len (b0 :: e')) 1) as [E|E]; [|reflexivity].
    pose proof (enc_width_1 _ _ He E). cbn [andb]. zsolve.
Qed.

(** [utf8.Valid] holds of exactly the well-formed strings. *)
Lemma Valid_iff s : utf8.Valid s = true <-> wf s.
Proof.
  split.
  - apply Valid_loop_wf. apply Nat.le_refl.
  - intros Hs. apply wf_Valid_loop; [assumption | apply Nat.le_refl].
Qed.

(** ** [strings.ToValidUTF8] *)

Lemma runeOf_ascii b : u8 b < 0x80 -> runeOf [b] = u8 b.
Proof. intros Hb. unfold runeOf. rewrite decode_ascii by assumption. reflexivity. Qed.

Lemma firstInvalid_wf s :
  wf s -> forall fuel i, strings.firstInvalid fuel s i = None.
Proof.
  intros Hs. induction Hs as [|e t He Ht IH] using wf_ind'; intros fuel i.
  - destruct fuel; reflexivity.
  - destruct fuel as [|fuel]; [reflexivity|].
    destruct e as [|b0 e']; [discriminate|].
    cbn [strings.firstInvalid app].
    change (b0 :: e' ++ t) with ((b0 :: e') ++ t).
    rewrite (decode_enc _ t He), skipn_len_app, !IH.
    destruct (negb (runeOf (b0 :: e') =? utf8.RuneError)) eqn:Er; [reflexivity|].
    destruct (Z.eqb_spec (len (b0 :: e')) 1) as [E|E]; [|reflexivity].
    pose proof (enc_width_1 _ _ He E) as Hb.
    rewrite (enc_ascii_head _ _ He Hb) in Er.
    rewrite runeOf_ascii in Er by assumption.
    unfold utf8.RuneError in Er. zsolve.
Qed.

Lemma firstInvalid_split fuel : forall s i0,
  (length s <= fuel)%nat ->
  match strings.firstInvalid fuel s i0 with
  | None => wf s
  | Some i => exists p q, s = p ++ q /\ wf p /\ i = i0 + len p
  end.
Proof.
  induction fuel as [|fuel IH]; intros s i0 Hlen.
  - destruct s; [apply wf_nil | cbn in Hlen; lia].
  - destruct s as [|b0 t]; [apply wf_nil|].
    cbn [strings.firstInvalid].
    assert (Hrec : forall e t', b0 :: t = e ++ t' -> isEnc e = true ->
      match strings.firstInvalid fuel t' (i0 + len e) with
      | None => wf (b0 :: t)
      | Some i => exists p q, b0 :: t = p ++ q /\ wf p /\ i = i0 + len p
      end).
    { intros e t' Heq He.
      assert (Hl : (length t' <= fuel)%nat).
      { apply (f_equal (@length byte)) in Heq. rewrite length_app in Heq.
        cbn [length] in *. pose proof (enc_len _ He). unfold len in *. lia. }
      specialize (IH t' (i0 + len e) Hl).
      destruct (strings.firstInvalid fuel t' (i0 + len e)) as [i|].
      - destruct IH as (p & q & -> & Hp & ->). exists (e ++ p), q.
        rewrite Heq, app_assoc, len_app. repeat split; [|lia].
        apply wf_enc_app; assumption.
      - rewrite Heq. apply wf_enc_app; assumption. }
    destruct (decode_dec b0 t) as [[Hd Hb] | (e & t' & Heq & He & Hd)]; rewrite Hd.
    + change (negb (utf8.RuneError =? utf8.RuneError)) with false. cbv iota.
      change (1 =? 1) with true. cbv iota.
      exists [], (b0 :: t). repeat split; [apply wf_nil | change (len (@nil byte)) with 0; lia].
    + specialize (Hrec e t' Heq He).
      replace (skipn (Z.to_nat (len e)) (b0 :: t)) with t'
        by (rewrite Heq; symmetry; apply skipn_len_app).
      destruct (negb (runeOf e =? utf8.RuneError)); [exact Hrec|].
      destruct (Z.eqb_spec (len e) 1) as [E|E]; [|exact Hrec].
      exists [], (b0 :: t). repeat split; [apply wf_nil | change (len (@nil byte)) with 0; lia].
Qed.

Lemma toValidLoop_wf rep fuel : forall s inv b,
  wf rep -> wf b -> wf (strings.toValidLoop fuel s rep inv b).
Proof.
  induction fuel as [|fuel IH]; intros s inv b Hrep Hb; [assumption|].
  destruct s as [|c s']; [assumption|].
  cbn [strings.toValidLoop].
  destruct (Z.ltb_spec (u8 c) utf8.RuneSelf) as [Hc|Hc].
  - apply IH; [assumption|]. apply wf_app; [assumption|].
    apply wf_enc, enc_single. exact Hc.
  - assert (Hb' : wf (if negb inv then b ++ rep else b)).
    { destruct (negb inv); [apply wf_app|]; assumption. }
    destruct (decode_dec c s') as [[Hd _] | (e & t' & Heq & He & Hd)]; rewrite Hd.
    + change (1 =? 1) with true. cbv iota. apply IH; assumption.
    + destruct (len e =? 1); [apply IH; assumption|].
      apply IH; [assumption|]. apply wf_app; [assumption|].
      rewrite Heq, firstn_len_app. apply wf_enc. assumption.
Qed.

Lemma slice_0 s i : slice s 0 i = firstn (Z.to_nat i) s.
Proof. unfold slice. rewrite Z.sub_0_r. reflexivity. Qed.

(** The result of [ToValidUTF8] is well formed. *)
Lemma ToValidUTF8_wf s rep : wf rep -> wf (strings.ToValidUTF8 s rep).
Proof.
  intros Hrep. unfold strings.ToValidUTF8.
  pose proof (firstInvalid_split (length s) s 0 (Nat.le_refl _)) as H.
  destruct (strings.firstInvalid (length s) s 0) as [i|]; [|assumption].
  destruct H as (p & q & -> & Hp & ->).
  apply toValidLoop_wf; [assumption|].
  rewrite slice_0, Z.add_0_l, firstn_len_app. assumption.
Qed.

(** [ToValidUTF8] leaves a well-formed string as it is. *)
Lemma ToValidUTF8_id s rep : wf s -> strings.ToValidUTF8 s rep = s.
Proof.
  intros Hs. unfold strings.ToValidUTF8. rewrite firstInvalid_wf by assumption.
  reflexivity.
Qed.

Lemma wf_replacement : wf history.replacement.
Proof. apply Valid_iff. reflexivity. Qed.

Lemma ensureValidUTF8_wf l : wf (history.ensureValidUTF8 l).
Proof.
  unfold history.ensureValidUTF8. destruct (utf8.Valid l) eqn:Hv.
  - apply Valid_iff. assumption.
  - apply ToValidUTF8_wf, wf_replacement.
Qed.

Lemma ensureValidUTF8_id l : wf l -> history.ensureValidUTF8 l = l.
Proof.
  intros Hl. unfold history.ensureValidUTF8.
  apply Valid_iff in Hl. rewrite Hl. reflexivity.
Qed.

(** ** [ToValidUTF8] replaces the runs of invalid bytes, and only them *)

Lemma decode_invalidAt b0 t :
  utf8.DecodeRuneInString (b0 :: t) = (utf8.RuneError, 1) -> 0x80 <= u8 b0 ->
  invalidAt (b0 :: t).
Proof.
  intros Hd Hb e t' Heq. destruct (isEnc e) eqn:He; [|reflexivity]. exfalso.
  rewrite Heq, (decode_enc _ _ He) in Hd. injection Hd as _ Hl.
  destruct e as [|b e']; [discriminate|]. cbn [app] in Heq. injection Heq as <- _.
  pose proof (enc_width_1 _ _ He Hl). lia.
Qed.

Lemma toValidLoop_builder rep fuel : forall s inv b,
  strings.toValidLoop fuel s rep inv b = b ++ strings.toValidLoop fuel s rep inv [].
Proof.
  induction fuel as [|fuel IH]; intros s inv b; cbn [strings.toValidLoop].
  - symmetry. apply app_nil_r.
  - destruct s as [|c s']; [symmetry; apply app_nil_r|].
    destruct (u8 c <? utf8.RuneSelf).
    + rewrite (IH s' false (b ++ [c])), (IH s' false ([] ++ [c])), app_assoc.
      reflexivity.
    + destruct (utf8.DecodeRuneInString (c :: s')) as [r wid].
      destruct (wid =? 1).
      * destruct (negb inv).
        -- rewrite (IH s' true (b ++ rep)), (IH s' true ([] ++ rep)), app_assoc.
           reflexivity.
        -- apply IH.
      * rewrite (IH _ false (b ++ _)), (IH _ false ([] ++ _)), app_assoc.
        reflexivity.
Qed.

Lemma toValidLoop_sanitized fuel : forall s inv,
  (length s <= fuel)%nat ->
  sanitized inv s (strings.toValidLoop fuel s history.replacement inv []).
Proof.
  induction fuel as [|fuel IH]; intros s inv Hlen.
  - destruct s; [constructor | cbn [length] in Hlen; lia].
  - destruct s as [|c s']; [constructor|].
    cbn [length] in Hlen. cbn [strings.toValidLoop].
    destruct (Z.ltb_spec (u8 c) utf8.RuneSelf) as [Hc|Hc].
    + rewrite toValidLoop_builder. cbn [app].
      apply (sanitized_enc inv [c]); [apply enc_single; exact Hc|].
      apply IH. lia.
    + destruct (decode_dec c s') as [[Hd Hb] | (e & t' & Heq & He & Hd)]; rewrite Hd.
      * change (1 =? 1) with true. cbv iota.
        rewrite toValidLoop_builder.
        replace (if negb inv then [] ++ history.replacement else [])
          with (if inv then [] else [xef; xbf; xbd]) by (destruct inv; reflexivity).
        apply sanitized_bad; [apply decode_invalidAt; assumption|].
        apply IH. lia.
      * destruct (Z.eqb_spec (len e) 1) as [E|E].
        { exfalso. destruct e as [|b e']; [discriminate|].
          cbn [app] in Heq. injection Heq as <- _.
          pose proof (enc_width_1 _ _ He E). unfold utf8.RuneSelf in Hc. lia. }
        rewrite toValidLoop_builder, Heq, firstn_len_app, skipn_len_app. cbn [app].
        apply sanitized_enc; [assumption|]. apply IH.
        apply (f_equal (@length byte)) in Heq. rewrite length_app in Heq.
        cbn [length] in Heq. pose proof (enc_len _ He). unfold len in *. lia.
Qed.

Lemma sanitized_wf s : wf s -> forall inv, sanitized inv s s.
Proof.
  intros Hs. induction Hs as [|e t He Ht IH] using wf_ind'; intros inv.
  - constructor.
  - apply sanitized_enc; [assumption | apply IH].
Qed.

Lemma sanitized_app p : wf p -> forall q q',
  sanitized false q q' -> sanitized false (p ++ q) (p ++ q').
Proof.
  intros Hp. induction Hp as [|e t He Ht IH] using wf_ind'; intros q q' Hq.
  - exact Hq.
  - rewrite <- !app_assoc. apply sanitized_enc; [assumption | apply IH; exact Hq].
Qed.

(** [ToValidUTF8(s, "\\uFFFD")] is [s] sanitized. *)
Lemma ToValidUTF8_sanitized s :
  sanitized false s (strings.ToValidUTF8 s history.replacement).
Proof.
  unfold strings.ToValidUTF8.
  pose proof (firstInvalid_split (length s) s 0 (Nat.le_refl _)) as H.
  destruct (strings.firstInvalid (length s) s 0) as [i|].
  - destruct H as (p & q & -> & Hp & ->). cbv zeta.
    rewrite slice_0, Z.add_0_l, firstn_len_app, skipn_len_app, toValidLoop_builder.
    apply sanitized_app; [assumption|]. apply toValidLoop_sanitized, Nat.le_refl.
  - apply sanitized_wf. assumption.
Qed.

(** [ensureValidUTF8] sanitizes the line. *)
Lemma ensureValidUTF8_sanitized l : sanitized false l (history.ensureValidUTF8 l).
Proof.
  unfold history.ensureValidUTF8. destruct (utf8.Valid l) eqn:Hv.
  - apply sanitized_wf, Valid_iff. assumption.
  - apply ToValidUTF8_sanitized.
Qed.

Lemma enc_prefix_unique e1 t1 e2 t2 :
  isEnc e1 = true -> isEnc e2 = true -> e1 ++ t1 = e2 ++ t2 ->
  e1 = e2 /\ t1 = t2.
Proof.
  intros H1 H2 Heq.
  pose proof (decode_enc e1 t1 H1) as D1. pose proof (decode_enc e2 t2 H2) as D2.
  rewrite Heq, D2 in D1. injection D1 as _ Hl.
  assert (Hf : firstn (Z.to_nat (len e1)) (e1 ++ t1) = e1) by apply firstn_len_app.
  rewrite Heq, <- Hl, firstn_len_app in Hf. subst e2.
  split; [reflexivity|]. apply app_inv_head in Heq. exact Heq.
Qed.

(** The sanitized string is determined by the string. *)
Lemma sanitized_fun inv s s1 :
  sanitized inv s s1 -> forall s2, sanitized inv s s2 -> s1 = s2.
Proof.
  induction 1 as [inv | inv e s s' He Hs IH | inv b s s' Hb Hs IH]; intros s2 H2.
  - inversion H2 as [ | ? e2 t2 t2' He2 H2' Heq | ].
    + reflexivity.
    + destruct e2; discriminate.
  - inversion H2 as [? Hi Heq | ? e2 t2 t2' He2 H2' Hi Heq | ? b2 t2 t2' Hb2 H2' Hi Heq].
    + destruct e; discriminate.
    + destruct (enc_prefix_unique _ _ _ _ He2 He Heq) as [-> ->].
      f_equal. apply IH. exact H2'.
    + exfalso. pose proof (Hb2 e s Heq) as Hf. congruence.
  - inversion H2 as [ | ? e2 t2 t2' He2 H2' Hi Heq | ? b2 t2 t2' Hb2 H2' Hi Heq].
    + exfalso. pose proof (Hb e2 t2 (eq_sym Heq)) as Hf. congruence.
    + subst. f_equal. apply IH. exact H2'.
Qed.

(** ** Indexing and slicing *)

Lemma at_app_ge p q i : len p <= i -> at_ (p ++ q) i = at_ q (i - len p).
Proof.
  intros Hi. unfold at_, len in *. rewrite app_nth2 by lia.
  f_equal. lia.
Qed.

Lemma at_app_lt p q i : 0 <= i < len p -> at_ (p ++ q) i = at_ p i.
Proof.
  intros Hi. unfold at_, len in *. apply app_nth1. lia.
Qed.

Lemma at_0 b s : at_ (b :: s) 0 = b.
Proof. reflexivity. Qed.

Lemma slice_app_mid p m t :
  slice (p ++ m ++ t) (len p) (len p + len m) = m.
Proof.
  unfold slice. replace (len p + len m - len p) with (len m) by lia.
  rewrite skipn_len_app. apply firstn_len_app.
Qed.

Lemma slice_app_r p m : slice (p ++ m) (len p) (len (p ++ m)) = m.
Proof.
  rewrite len_app. rewrite <- (app_nil_r m) at 1. rewrite slice_app_mid. reflexivity.
Qed.

Lemma slice_prefix p t : slice (p ++ t) 0 (len p) = p.
Proof. rewrite slice_0. apply firstn_len_app. Qed.

Lemma slice_full s : slice s 0 (len s) = s.
Proof. rewrite <- (app_nil_r s) at 1. apply slice_prefix. Qed.

Lemma slice_empty s i : slice s i i = [].
Proof. unfold slice. rewrite Z.sub_diag. reflexivity. Qed.

(** ** The backward decoder *)

Lemma RuneStart_spec b : utf8.RuneStart b = negb (cont b).
Proof. destruct b; vm_compute; reflexivity. Qed.

Lemma enc_tail_cont b0 e b :
  isEnc (b0 :: e) = true -> In b e -> cont b = true.
Proof.
  destruct e as [|b1 [|b2 [|b3 [|b4 e]]]]; try discriminate; cbn [In];
    unfold isEnc; intros He Hin;
    repeat match goal with H : _ \/ _ |- _ => destruct H as [<- | H] end;
    try contradiction;
    repeat match goal with
           | H : _ && _ = true |- _ => apply andb_prop in H; destruct H
           | H : _ || _ = true |- _ => apply orb_prop in H; destruct H
           end; try assumption; unfold cont; zsolve.
Qed.

Lemma enc_head_start b0 e : isEnc (b0 :: e) = true -> cont b0 = false.
Proof.
  intros He. destruct (enc_head_ascii_or_lead _ _ He); unfold cont; zsolve.
Qed.

Lemma decode_enc_self e :
  isEnc e = true -> utf8.DecodeRuneInString e = (runeOf e, len e).
Proof. intros He. rewrite <- (app_nil_r e) at 1. apply decode_enc. assumption. Qed.

Lemma at_app_len p b q : at_ (p ++ b :: q) (len p) = b.
Proof. rewrite at_app_ge by lia. rewrite Z.sub_diag. reflexivity. Qed.

(** The walk back over the continuation bytes of the last sequence stops at
    its first byte. *)
Lemma scanBack_enc p b0 : forall mid fuel tl lim,
  cont b0 = false ->
  Forall (fun b => cont b = true) mid ->
  (length mid < fuel)%nat ->
  lim <= len p ->
  utf8.scanBack fuel (p ++ b0 :: mid ++ tl) (len p + len mid) lim = len p.
Proof.
  induction mid as [|m mid IH] using rev_ind; intros fuel tl lim Hb0 Hmid Hfuel Hlim.
  - destruct fuel as [|fuel]; [cbn in Hfuel; lia|].
    cbn [utf8.scanBack app]. change (len (@nil byte)) with 0. rewrite Z.add_0_r.
    destruct (Z.ltb_spec (len p) lim); [lia|].
    rewrite at_app_len, RuneStart_spec, Hb0. reflexivity.
  - destruct fuel as [|fuel]; [cbn in Hfuel; lia|].
    apply Forall_app in Hmid as [Hmid Hm]. inversion Hm as [|? ? Hm' _]; subst.
    rewrite length_app in Hfuel. cbn [length] in Hfuel.
    pose proof (len_nonneg mid). pose proof (len_nonneg p).
    assert (E : p ++ b0 :: (mid ++ [m]) ++ tl = (p ++ b0 :: mid) ++ m :: tl).
    { rewrite <- !app_assoc. reflexivity. }
    assert (El : len p + len (mid ++ [m]) = len (p ++ b0 :: mid)).
    { rewrite !len_app, !len_cons. change (len (@nil byte)) with 0. lia. }
    cbn [utf8.scanBack]. rewrite E, El, at_app_len, RuneStart_spec, Hm'. cbn [negb].
    destruct (Z.ltb_spec (len (p ++ b0 :: mid)) lim) as [Hlt|Hge].
    { rewrite len_app, len_cons in Hlt. lia. }
    replace (len (p ++ b0 :: mid) - 1) with (len p + len mid)
      by (rewrite len_app, len_cons; lia).
    replace ((p ++ b0 :: mid) ++ m :: tl) with (p ++ b0 :: mid ++ (m :: tl))
      by (rewrite <- !app_assoc; reflexivity).
    apply IH; try assumption; lia.
Qed.

(** On a string that ends with a well-formed sequence,
    [DecodeLastRuneInString] returns its code point and its length. *)
Lemma decodeLast_enc p e :
  isEnc e = true ->
  utf8.DecodeLastRuneInString (p ++ e) = (runeOf e, len e).
Proof.
  intros He. pose proof (enc_len _ He) as Hl. pose proof (len_nonneg p) as Hp.
  unfold utf8.DecodeLastRuneInString. cbv zeta. rewrite len_app.
  destruct (Z.eqb_spec (len p + len e) 0); [lia|].
  destruct (@exists_last _ e (enc_nonempty _ He)) as (e0 & bl & Ee).
  assert (Hat : at_ (p ++ e) (len p + len e - 1) = bl).
  { rewrite Ee, app_assoc, at_app_ge by (rewrite !len_app, len_cons; change (len (@nil byte)) with 0; lia).
    rewrite !len_app, len_cons. change (len (@nil byte)) with 0.
    replace (len p + (len e0 + (0 + 1)) - 1 - (len p + len e0)) with 0 by lia.
    reflexivity. }
  rewrite Hat.
  destruct (Z.ltb_spec (u8 bl) utf8.RuneSelf) as [Hbl|Hbl].
  - rewrite Ee in He. rewrite (enc_ascii_last _ _ He Hbl) in Ee. cbn [app] in Ee. subst e.
    rewrite runeOf_ascii by assumption. reflexivity.
  - destruct e as [|b0 mid0]; [discriminate|].
    destruct e0 as [|b0' mid]; cbn [app] in Ee.
    { injection Ee as -> ->. unfold isEnc in He. unfold utf8.RuneSelf in Hbl. zsolve. }
    injection Ee as <- ->.
    assert (Hcont : Forall (fun b => cont b = true) (mid ++ [bl])).
    { apply Forall_forall. intros b Hb. eapply enc_tail_cont; eassumption. }
    apply Forall_app in Hcont as [Hmid _].
    rewrite len_cons, len_app, len_cons in *. change (len (@nil byte)) with 0 in *.
    pose proof (len_nonneg mid).
    replace (len p + (len mid + (0 + 1) + 1) - 1 - 1) with (len p + len mid) by lia.
    rewrite scanBack_enc.
    + destruct (Z.ltb_spec (len p) 0); [lia|].
      replace (len p + (len mid + (0 + 1) + 1)) with (len (p ++ b0 :: mid ++ [bl]))
        by (rewrite len_app, len_cons, len_app, len_cons; change (len (@nil byte)) with 0; lia).
      rewrite slice_app_r, (decode_enc_self _ He).
      rewrite len_app, !len_cons, len_app, len_cons. change (len (@nil byte)) with 0.
      destruct (Z.eqb_spec (len p + (len mid + (0 + 1) + 1)) (len p + (len mid + (0 + 1) + 1))); [|lia].
      reflexivity.
    + eapply enc_head_start; eassumption.
    + assumption.
    + unfold len in *. change (Z.to_nat utf8.UTFMax) with 4%nat. lia.
    + unfold utf8.UTFMax. destruct (Z.ltb_spec (len p + (len mid + (0 + 1) + 1) - 4) 0); lia.
Qed.

(** ** Dropping white space from a list of sequences *)


Lemma dropSpaces_split es :
  exists pre, es = pre ++ dropSpaces es /\ Forall (fun e => spaceEnc e = true) pre.
Proof.
  induction es as [|e es (pre & Heq & Hpre)]; cbn [dropSpaces].
  - exists []. split; [reflexivity | constructor].
  - destruct (spaceEnc e) eqn:He.
    + exists (e :: pre). split; [cbn [app]; congruence | constructor; assumption].
    + exists []. split; [reflexivity | constructor].
Qed.

Lemma dropSpaces_Forall (P : list byte -> Prop) es :
  Forall P es -> Forall P (dropSpaces es).
Proof.
  induction 1 as [|e es He Hes IH]; cbn [dropSpaces]; [constructor|].
  destruct (spaceEnc e); [assumption | constructor; assumption].
Qed.

Lemma dropSpaces_head es :
  match dropSpaces es with [] => True | e :: _ => spaceEnc e = false end.
Proof.
  induction es as [|e es IH]; cbn [dropSpaces]; [exact I|].
  destruct (spaceEnc e) eqn:He; assumption.
Qed.

Lemma dropSpacesEnd_snoc es e :
  dropSpacesEnd (es ++ [e]) = if spaceEnc e then dropSpacesEnd es else es ++ [e].
Proof.
  unfold dropSpacesEnd. rewrite rev_app_distr. cbn [rev app dropSpaces].
  destruct (spaceEnc e); [reflexivity|]. cbn [rev]. rewrite rev_involutive. reflexivity.
Qed.

Lemma dropSpacesEnd_nil : dropSpacesEnd [] = [].
Proof. reflexivity. Qed.

Lemma dropSpacesEnd_split es :
  exists tl, es = dropSpacesEnd es ++ tl /\ Forall (fun e => spaceEnc e = true) tl.
Proof.
  unfold dropSpacesEnd. destruct (dropSpaces_split (rev es)) as (pre & Heq & Hpre).
  exists (rev pre). split.
  - rewrite <- rev_app_distr, <- Heq, rev_involutive. reflexivity.
  - apply Forall_rev. assumption.
Qed.

Lemma dropSpacesEnd_Forall (P : list byte -> Prop) es :
  Forall P es -> Forall P (dropSpacesEnd es).
Proof.
  intros H. unfold dropSpacesEnd. apply Forall_rev, dropSpaces_Forall, Forall_rev.
  assumption.
Qed.

Lemma dropSpacesEnd_last es :
  dropSpacesEnd es = [] \/
  exists es' e, dropSpacesEnd es = es' ++ [e] /\ spaceEnc e = false.
Proof.
  unfold dropSpacesEnd. pose proof (dropSpaces_head (rev es)) as H.
  destruct (dropSpaces (rev es)) as [|e d]; [left; reflexivity|].
  right. exists (rev d), e. split; [reflexivity | assumption].
Qed.

(** Trailing white space is dropped after the first sequence when that one
    is no white space. *)
Lemma dropSpacesEnd_cons e es :
  spaceEnc e = false -> exists es', dropSpacesEnd (e :: es) = e :: es'.
Proof.
  intros He. induction es as [|x es IH] using rev_ind.
  - exists []. change [e] with ([] ++ [e]). rewrite dropSpacesEnd_snoc, He. reflexivity.
  - change (e :: es ++ [x]) with ((e :: es) ++ [x]). rewrite dropSpacesEnd_snoc.
    destruct (spaceEnc x); [assumption|]. exists (es ++ [x]). reflexivity.
Qed.

Lemma encs_length es : Forall (fun e => isEnc e = true) es -> (length es <= length (concat es))%nat.
Proof.
  induction 1 as [|e es He Hes IH]; cbn [concat length]; [lia|].
  rewrite length_app. pose proof (enc_len _ He). unfold len in *. lia.
Qed.

(** ** [strings.TrimLeftFunc] and [strings.TrimRightFunc] at [unicode.IsSpace] *)

Lemma indexFunc_loop_spec es : forall fuel i,
  Forall (fun e => isEnc e = true) es -> (length (concat es) <= fuel)%nat ->
  strings.indexFunc_loop fuel (concat es) i unicode.IsSpace false =
  match dropSpaces es with
  | [] => -1
  | _ => i + (len (concat es) - len (concat (dropSpaces es)))
  end.
Proof.
  induction es as [|e es IH]; intros fuel i Hes Hfuel.
  - destruct fuel; reflexivity.
  - inversion Hes as [|? ? He Hes']; subst.
    destruct e as [|b0 e']; [discriminate|].
    cbn [concat] in *. rewrite length_app in Hfuel.
    destruct fuel as [|fuel]; [cbn [length] in Hfuel; lia|].
    cbn [app strings.indexFunc_loop]. change (b0 :: e' ++ concat es) with ((b0 :: e') ++ concat es).
    rewrite (decode_enc _ _ He), skipn_len_app.
    cbn [dropSpaces].
    destruct (spaceEnc (b0 :: e')) eqn:Esp; unfold spaceEnc in Esp; rewrite Esp;
      cbn [Bool.eqb].
    + rewrite IH by (try assumption; cbn [length] in Hfuel; lia).
      destruct (dropSpaces es); [reflexivity|]. rewrite ?len_cons, ?len_app, ?len_cons. lia.
    + cbn [concat]. rewrite ?len_cons, ?len_app, ?len_cons. lia.
Qed.

Lemma TrimLeftFunc_spec es :
  Forall (fun e => isEnc e = true) es -> strings.TrimLeftFunc (concat es) unicode.IsSpace = concat (dropSpaces es).
Proof.
  intros Hes. unfold strings.TrimLeftFunc, strings.indexFunc. cbv zeta.
  rewrite indexFunc_loop_spec by (try assumption; apply Nat.le_refl).
  destruct (dropSpaces_split es) as (pre & Heq & _).
  destruct (dropSpaces es) as [|d ds] eqn:Ed; [reflexivity|].
  rewrite Heq. rewrite concat_app, len_app.
  pose proof (len_nonneg (concat pre)).
  replace (0 + (len (concat pre) + len (concat (d :: ds)) - len (concat (d :: ds))))
    with (len (concat pre)) by lia.
  destruct (Z.eqb_spec (len (concat pre)) (-1)); [lia|].
  rewrite <- len_app. apply slice_app_r.
Qed.

Lemma lastIndexFunc_loop_spec es : forall fuel tl,
  Forall (fun e => isEnc e = true) es -> (length es <= fuel)%nat ->
  strings.lastIndexFunc_loop fuel (concat es ++ tl) (len (concat es))
                             unicode.IsSpace false =
  match rev (dropSpacesEnd es) with
  | [] => -1
  | e :: _ => len (concat (dropSpacesEnd es)) - len e
  end.
Proof.
  induction es as [|e es IH] using rev_ind; intros fuel tl Hes Hfuel.
  - destruct fuel; reflexivity.
  - apply Forall_app in Hes as [Hes He]. inversion He as [|? ? He' _]; subst.
    rewrite length_app in Hfuel. cbn [length] in Hfuel.
    destruct fuel as [|fuel]; [lia|].
    pose proof (enc_len _ He'). pose proof (len_nonneg (concat es)).
    cbn [strings.lastIndexFunc_loop].
    rewrite concat_app. cbn [concat]. rewrite app_nil_r, len_app.
    destruct (Z.ltb_spec 0 (len (concat es) + len e)); [|lia].
    rewrite <- len_app, slice_prefix, (decodeLast_enc _ _ He').
    rewrite dropSpacesEnd_snoc.
    destruct (spaceEnc e) eqn:Esp; unfold spaceEnc in Esp; rewrite Esp;
      cbn [Bool.eqb].
    + rewrite len_app. replace (len (concat es) + len e - len e) with (len (concat es)) by lia.
      rewrite <- app_assoc. apply IH; [assumption | lia].
    + rewrite rev_app_distr. cbn [rev app]. rewrite concat_app. cbn [concat].
      rewrite app_nil_r. reflexivity.
Qed.

Lemma TrimRightFunc_spec es :
  Forall (fun e => isEnc e = true) es ->
  strings.TrimRightFunc (concat es) unicode.IsSpace = concat (dropSpacesEnd es).
Proof.
  intros Hes. unfold strings.TrimRightFunc, strings.lastIndexFunc. cbv zeta.
  pose proof (lastIndexFunc_loop_spec es (length (concat es)) [] Hes
                (encs_length _ Hes)) as Hidx.
  rewrite app_nil_r in Hidx. rewrite Hidx. clear Hidx.
  destruct (dropSpacesEnd_split es) as (tl & Heq & _).
  destruct (dropSpacesEnd_last es) as [E | (ds & e & E & Esp)].
  - rewrite E. cbn [rev]. change (0 <=? -1) with false. cbn [andb].
    change (-1 + 1) with 0. apply slice_empty.
  - assert (He : isEnc e = true).
    { pose proof (dropSpacesEnd_Forall _ _ Hes) as HF. rewrite E in HF.
      apply Forall_app in HF as [_ HF]. inversion HF; assumption. }
    rewrite E in *. rewrite rev_app_distr. cbn [rev app].
    rewrite concat_app. cbn [concat]. rewrite app_nil_r, len_app.
    pose proof (len_nonneg (concat ds)). pose proof (enc_len _ He).
    replace (len (concat ds) + len e - len e) with (len (concat ds)) by lia.
    destruct (Z.leb_spec 0 (len (concat ds))); [|lia]. cbn [andb].
    assert (Es : concat es = concat ds ++ e ++ concat tl).
    { rewrite Heq, concat_app, concat_app. cbn [concat].
      rewrite app_nil_r, <- app_assoc. reflexivity. }
    rewrite Es.
    destruct e as [|b0 e']; [discriminate|].
    cbn [app]. rewrite at_app_len.
    change (b0 :: e' ++ concat tl) with ((b0 :: e') ++ concat tl).
    replace (len (concat ds ++ (b0 :: e') ++ concat tl))
      with (len (concat ds ++ (b0 :: e') ++ concat tl)) by reflexivity.
    assert (Hw : (if utf8.RuneSelf <=? u8 b0
                  then let '(_, wid) := utf8.DecodeRuneInString
                         (slice (concat ds ++ (b0 :: e') ++ concat tl) (len (concat ds))
                                (len (concat ds ++ (b0 :: e') ++ concat tl))) in
                       len (concat ds) + wid
                  else len (concat ds) + 1) = len (concat ds) + len (b0 :: e')).
    { rewrite slice_app_r, (decode_enc _ _ He).
      destruct (Z.leb_spec utf8.RuneSelf (u8 b0)) as [Hb|Hb]; [reflexivity|].
      rewrite (enc_ascii_head _ _ He Hb). reflexivity. }
    rewrite Hw, <- len_app, app_assoc. apply slice_prefix.
Qed.

(** ** [strings.TrimSpace] *)

Lemma asciiSpace_IsSpace b :
  u8 b < 0x80 -> (strings.asciiSpace b =? 0) = negb (unicode.IsSpace (u8 b)).
Proof.
  intros Hb. pose proof (u8_range b).
  unfold strings.asciiSpace, unicode.IsSpace, unicode.MaxLatin1. cbv zeta.
  zsolve.
Qed.

Lemma spaceEnc_ascii b :
  u8 b < 0x80 -> spaceEnc [b] = negb (strings.asciiSpace b =? 0).
Proof.
  intros Hb. unfold spaceEnc. rewrite runeOf_ascii, asciiSpace_IsSpace by assumption.
  rewrite negb_involutive. reflexivity.
Qed.

Lemma TrimFunc_spec es :
  Forall (fun e => isEnc e = true) es ->
  strings.TrimFunc (concat es) unicode.IsSpace =
  concat (dropSpacesEnd (dropSpaces es)).
Proof.
  intros Hes. unfold strings.TrimFunc.
  rewrite TrimLeftFunc_spec by assumption.
  apply TrimRightFunc_spec, dropSpaces_Forall. assumption.
Qed.

Lemma trimSpaceStop_spec pre es : forall fuel tl,
  Forall (fun e => isEnc e = true) es -> (length es <= fuel)%nat ->
  strings.trimSpaceStop fuel (pre ++ concat es ++ tl) (len pre)
                        (len pre + len (concat es)) =
  concat (dropSpacesEnd es).
Proof.
  induction es as [|e es IH] using rev_ind; intros fuel tl Hes Hfuel.
  - cbn [concat]. change (len (@nil byte)) with 0. rewrite Z.add_0_r.
    destruct fuel; cbn [strings.trimSpaceStop]; rewrite ?Z.ltb_irrefl;
      apply slice_empty.
  - apply Forall_app in Hes as [Hes He]. inversion He as [|? ? He' _]; subst.
    rewrite length_app in Hfuel. cbn [length] in Hfuel.
    destruct fuel as [|fuel]; [lia|].
    pose proof (enc_len _ He'). pose proof (len_nonneg (concat es)).
    pose proof (len_nonneg pre).
    cbn [strings.trimSpaceStop].
    rewrite concat_app. cbn [concat]. rewrite app_nil_r, len_app.
    destruct (Z.ltb_spec (len pre) (len pre + (len (concat es) + len e))); [|lia].
    destruct (@exists_last _ e (enc_nonempty _ He')) as (e0 & bl & Ee).
    assert (Hat : at_ (pre ++ (concat es ++ e) ++ tl)
                      (len pre + (len (concat es) + len e) - 1) = bl).
    { replace (pre ++ (concat es ++ e) ++ tl)
        with ((pre ++ concat es ++ e0) ++ bl :: tl)
        by (rewrite Ee, <- !app_assoc; reflexivity).
      replace (len pre + (len (concat es) + len e) - 1)
        with (len (pre ++ concat es ++ e0))
        by (rewrite Ee, !len_app, len_cons; change (len (@nil byte)) with 0; lia).
      apply at_app_len. }
    rewrite Hat.
    assert (Hsl : slice (pre ++ (concat es ++ e) ++ tl) (len pre)
                        (len pre + (len (concat es) + len e)) = concat es ++ e).
    { rewrite <- len_app. apply slice_app_mid. }
    assert (Hc : concat (es ++ [e]) = concat es ++ e).
    { rewrite concat_app. cbn [concat]. rewrite app_nil_r. reflexivity. }
    destruct (Z.leb_spec utf8.RuneSelf (u8 bl)) as [Hbl|Hbl].
    + rewrite Hsl, <- Hc. apply TrimRightFunc_spec.
      apply Forall_app. split; [assumption | constructor; [assumption | constructor]].
    + rewrite Ee in He'. pose proof (enc_ascii_last _ _ He' Hbl) as ->.
      cbn [app] in Ee. subst e. rewrite dropSpacesEnd_snoc, spaceEnc_ascii by assumption.
      destruct (strings.asciiSpace bl =? 0); cbn [negb].
      * rewrite Hsl, Hc. reflexivity.
      * rewrite len_cons in *. change (len (@nil byte)) with 0 in *.
        replace (len pre + (len (concat es) + (0 + 1)) - 1)
          with (len pre + len (concat es)) by lia.
        rewrite <- app_assoc. apply IH; [assumption | lia].
Qed.

Lemma trimSpaceStart_spec es : forall pre fuel,
  Forall (fun e => isEnc e = true) es -> (length es <= fuel)%nat ->
  strings.trimSpaceStart fuel (pre ++ concat es) (len pre) =
  concat (dropSpacesEnd (dropSpaces es)).
Proof.
  induction es as [|e es IH]; intros pre fuel Hes Hfuel.
  - assert (Hstop : strings.trimSpaceStop (length (pre ++ concat []))
                      (pre ++ concat []) (len pre) (len (pre ++ concat [])) = []).
    { pose proof (trimSpaceStop_spec pre [] (length (pre ++ concat [])) []
                    (Forall_nil _) (Nat.le_0_l _)) as H.
      cbn [concat] in *. rewrite !app_nil_r in *. change (len (@nil byte)) with 0 in H.
      rewrite Z.add_0_r in H. exact H. }
    destruct fuel; cbn [strings.trimSpaceStart].
    + exact Hstop.
    + cbn [concat] in *. rewrite app_nil_r in *. rewrite Z.ltb_irrefl. exact Hstop.
  - inversion Hes as [|? ? He Hes']; subst.
    destruct fuel as [|fuel]; [cbn [length] in Hfuel; lia|].
    cbn [length] in Hfuel.
    pose proof (enc_len _ He). pose proof (len_nonneg (concat es)).
    pose proof (len_nonneg pre).
    destruct e as [|b0 e']; [discriminate|].
    assert (Hstop : strings.trimSpaceStop (length (pre ++ concat ((b0 :: e') :: es)))
                      (pre ++ concat ((b0 :: e') :: es)) (len pre)
                      (len (pre ++ concat ((b0 :: e') :: es)))
                    = concat (dropSpacesEnd ((b0 :: e') :: es))).
    { pose proof (trimSpaceStop_spec pre ((b0 :: e') :: es)
                    (length (pre ++ concat ((b0 :: e') :: es))) [] Hes) as Hs.
      rewrite app_nil_r, <- len_app in Hs. apply Hs.
      rewrite length_app. pose proof (encs_length _ Hes). lia. }
    cbn [strings.trimSpaceStart].
    destruct (Z.ltb_spec (len pre) (len (pre ++ concat ((b0 :: e') :: es)))) as [_|Hge].
    2:{ rewrite len_app in Hge. cbn [concat] in Hge. rewrite len_app in Hge. lia. }
    replace (at_ (pre ++ concat ((b0 :: e') :: es)) (len pre)) with b0
      by (cbn [concat app]; rewrite at_app_len; reflexivity).
    destruct (Z.leb_spec utf8.RuneSelf (u8 b0)) as [Hb|Hb].
    + rewrite slice_app_r. apply TrimFunc_spec. assumption.
    + pose proof (enc_ascii_head _ _ He Hb) as ->.
      cbn [dropSpaces]. rewrite spaceEnc_ascii by assumption.
      destruct (strings.asciiSpace b0 =? 0); cbn [negb].
      * exact Hstop.
      * replace (pre ++ concat ([b0] :: es)) with ((pre ++ [b0]) ++ concat es)
          by (cbn [concat]; rewrite <- app_assoc; reflexivity).
        replace (len pre + 1) with (len (pre ++ [b0]))
          by (rewrite len_app, len_cons; change (len (@nil byte)) with 0; lia).
        apply IH; [assumption | lia].
Qed.

(** [TrimSpace] on a well-formed string drops the leading and the trailing
    white space characters. *)
Lemma TrimSpace_spec es :
  Forall (fun e => isEnc e = true) es ->
  strings.TrimSpace (concat es) = concat (dropSpacesEnd (dropSpaces es)).
Proof.
  intros Hes. unfold strings.TrimSpace.
  apply (trimSpaceStart_spec es [] (length (concat es)) Hes).
  apply encs_length. assumption.
Qed.

Lemma TrimSpace_wf s : wf s -> wf (strings.TrimSpace s).
Proof.
  intros (es & Hes & ->). rewrite TrimSpace_spec by assumption.
  exists (dropSpacesEnd (dropSpaces es)). split; [|reflexivity].
  apply dropSpacesEnd_Forall, dropSpaces_Forall. assumption.
Qed.

Lemma TrimSpace_noLeadingSpace s : wf s -> noLeadingSpace (strings.TrimSpace s).
Proof.
  intros (es & Hes & ->) e t Heq He. rewrite TrimSpace_spec in Heq by assumption.
  pose proof (dropSpaces_head es) as Hh.
  pose proof (dropSpaces_Forall _ _ Hes) as Hd.
  destruct (dropSpaces es) as [|h r].
  - cbn in Heq. destruct e; [discriminate | discriminate].
  - destruct (dropSpacesEnd_cons h r Hh) as (r' & Er). rewrite Er in Heq.
    inversion Hd as [|? ? Hhe _]; subst.
    cbn [concat] in Heq.
    pose proof (decode_enc h (concat r') Hhe) as D1.
    pose proof (decode_enc e t He) as D2.
    rewrite Heq, D2 in D1. injection D1 as E1 _.
    unfold spaceEnc in Hh. rewrite E1. exact Hh.
Qed.

Lemma TrimSpace_noTrailingSpace s : wf s -> noTrailingSpace (strings.TrimSpace s).
Proof.
  intros (es & Hes & ->) p e Heq He. rewrite TrimSpace_spec in Heq by assumption.
  pose proof (dropSpacesEnd_Forall _ _ (dropSpaces_Forall _ _ Hes)) as Hd.
  destruct (dropSpacesEnd_last (dropSpaces es)) as [E | (r & l & E & Hl)];
    rewrite E in *.
  - cbn in Heq. destruct p; destruct e; discriminate.
  - apply Forall_app in Hd as [_ Hd]. inversion Hd as [|? ? Hle _]; subst.
    rewrite concat_app in Heq. cbn [concat] in Heq. rewrite app_nil_r in Heq.
    pose proof (decodeLast_enc (concat r) l Hle) as D1.
    pose proof (decodeLast_enc p e He) as D2.
    rewrite Heq, D2 in D1. injection D1 as E1 _.
    unfold spaceEnc in Hl. rewrite E1. exact Hl.
Qed.

(** ** [strconv.ParseInt] on a string of digits *)

Lemma isDigit_range b : history.isDigit b = true <-> 0x30 <= u8 b <= 0x39.
Proof. unfold history.isDigit. split; intros H; zsolve. Qed.

Lemma decimalFrom_ge s : forall n, digits s -> n <= decimalFrom n s \/ n < 0.
Proof.
  induction s as [|b s IH]; intros n Hs; [left; cbn; lia|].
  inversion Hs as [|? ? Hb Hs']; subst. apply isDigit_range in Hb.
  unfold decimalFrom in *. cbn [fold_left].
  destruct (IH (n * 10 + (u8 b - 48)) Hs'); lia.
Qed.

Lemma parseUintLoop_digits s : forall n,
  digits s -> 0 <= n < 2 ^ 64 ->
  strconv.parseUintLoop s n =
  if decimalFrom n s <? 2 ^ 64 then (decimalFrom n s, None)
  else (2 ^ 64 - 1, Some strconv.ErrRange).
Proof.
  induction s as [|b s IH]; intros n Hs Hn.
  - unfold decimalFrom. cbn [strconv.parseUintLoop fold_left].
    destruct (Z.ltb_spec n (2 ^ 64)); [reflexivity | lia].
  - inversion Hs as [|? ? Hb Hs']; subst. apply isDigit_range in Hb.
    cbn [strconv.parseUintLoop]. cbv zeta.
    destruct (Z.leb_spec 48 (u8 b)); [|lia].
    destruct (Z.leb_spec (u8 b) 57); [|lia]. cbn [andb].
    destruct (Z.leb_spec 10 (u8 b - 48)); [lia|].
    change (strconv.maxUint64 / 10 + 1) with 1844674407370955162.
    change (2 ^ 64) with 18446744073709551616 in *.
    change (18446744073709551616 - 1) with 18446744073709551615.
    assert (Hstep : decimalFrom n (b :: s) = decimalFrom (n * 10 + (u8 b - 48)) s)
      by reflexivity.
    pose proof (decimalFrom_ge s (n * 10 + (u8 b - 48)) Hs') as Hge.
    destruct (Z.leb_spec 1844674407370955162 n).
    { rewrite Hstep. destruct (Z.ltb_spec (decimalFrom (n * 10 + (u8 b - 48)) s)
                                          18446744073709551616); [lia | reflexivity]. }
    rewrite (Z.mod_small (n * 10)) by lia.
    destruct (Z.lt_ge_cases (n * 10 + (u8 b - 48)) 18446744073709551616) as [Hlt|Hge'].
    + rewrite (Z.mod_small (n * 10 + (u8 b - 48))) by lia.
      destruct (Z.ltb_spec (n * 10 + (u8 b - 48)) (n * 10)); [lia|].
      destruct (Z.ltb_spec 18446744073709551615 (n * 10 + (u8 b - 48))); [lia|].
      cbn [orb]. rewrite Hstep. apply IH; [assumption | lia].
    + assert (Hmod : (n * 10 + (u8 b - 48)) mod 18446744073709551616
                     = n * 10 + (u8 b - 48) - 18446744073709551616).
      { symmetry. apply (Z.mod_unique _ _ 1); lia. }
      rewrite Hmod.
      destruct (Z.ltb_spec (n * 10 + (u8 b - 48) - 18446744073709551616) (n * 10)); [|lia].
      cbn [orb]. rewrite Hstep.
      destruct (Z.ltb_spec (decimalFrom (n * 10 + (u8 b - 48)) s)
                           18446744073709551616); [lia | reflexivity].
Qed.

Lemma digit_not_sign b :
  history.isDigit b = true -> Byte.eqb b x2b = false /\ Byte.eqb b x2d = false.
Proof. destruct b; vm_compute; intros H; try discriminate; split; reflexivity. Qed.

Lemma decimal_nonneg s : digits s -> 0 <= decimal s.
Proof. intros Hs. destruct (decimalFrom_ge s 0 Hs); [assumption | lia]. Qed.

(** [ParseInt] on a non-empty string of digits: the number it denotes when
    that is an [int64], and else the largest [int64] with a range error. *)
Lemma ParseInt_digits s :
  digits s -> s <> [] ->
  strconv.ParseInt s =
  if decimal s <? 2 ^ 63 then (decimal s, None)
  else (MaxInt64, Some strconv.ErrRange).
Proof.
  intros Hs Hne. destruct s as [|b s']; [congruence|].
  pose proof Hs as Hs0. inversion Hs as [|? ? Hb Hs']; subst.
  destruct (digit_not_sign b Hb) as [E1 E2].
  unfold strconv.ParseInt. rewrite E1, E2.
  unfold strconv.ParseUint. rewrite parseUintLoop_digits by (try assumption; lia).
  fold (decimal (b :: s')). pose proof (decimal_nonneg _ Hs0).
  change (2 ^ 64) with 18446744073709551616. change (2 ^ 63) with 9223372036854775808.
  unfold MaxInt64. change (2 ^ 63 - 1) with 9223372036854775807.
  destruct (Z.ltb_spec (decimal (b :: s')) 18446744073709551616).
  - cbn [negb andb].
    destruct (Z.leb_spec 9223372036854775808 (decimal (b :: s')));
      destruct (Z.ltb_spec (decimal (b :: s')) 9223372036854775808); try lia;
      reflexivity.
  - cbn [negb andb].
    destruct (Z.ltb_spec (decimal (b :: s')) 9223372036854775808); try lia.
    reflexivity.
Qed.

(** When [ParseInt] fails on a string of digits, its value is the largest
    [int64]. *)
Lemma ParseInt_digits_error s :
  digits s -> s <> [] -> snd (strconv.ParseInt s) <> None ->
  strconv.ParseInt s = (MaxInt64, Some strconv.ErrRange).
Proof.
  intros Hs Hne Herr. rewrite ParseInt_digits in * by assumption.
  destruct (decimal s <? 2 ^ 63); [cbn in Herr; congruence | reflexivity].
Qed.

(** The timestamp of the record of a header line is the number that its
    digit field denotes, when that is an [int64]. *)
Lemma entryOf_timestamp ts rest :
  digits ts -> ts <> [] -> decimal ts < 2 ^ 63 ->
  history.Timestamp (entryOf ts rest) = decimal ts.
Proof.
  intros Hts Hne Hlt. unfold entryOf. cbn [history.Timestamp].
  rewrite ParseInt_digits by assumption.
  destruct (Z.ltb_spec (decimal ts) (2 ^ 63)); [reflexivity | lia].
Qed.

(** ** The pattern of the header line *)

Lemma span_inv p s : forall u v,
  history.span p s = (u, v) ->
  s = u ++ v /\ Forall (fun b => p b = true) u /\
  match v with [] => True | b :: _ => p b = false end.
Proof.
  induction s as [|b s IH]; intros u v H; cbn [history.span] in H.
  - injection H as <- <-. repeat split. constructor.
  - destruct (p b) eqn:Hb.
    + destruct (history.span p s) as [u' v']. injection H as <- <-.
      destruct (IH _ _ eq_refl) as (-> & Hu & Hv).
      repeat split; [constructor; assumption | assumption].
    + injection H as <- <-. repeat split; [constructor | assumption].
Qed.

Lemma span_app p u : forall v,
  Forall (fun b => p b = true) u ->
  match v with [] => True | b :: _ => p b = false end ->
  history.span p (u ++ v) = (u, v).
Proof.
  induction u as [|b u IH]; intros v Hu Hv; cbn [app].
  - destruct v as [|c v]; [reflexivity|]. cbn [history.span]. rewrite Hv. reflexivity.
  - inversion Hu as [|? ? Hb Hu']; subst. cbn [history.span].
    rewrite Hb, (IH v Hu' Hv). reflexivity.
Qed.

Lemma notNewline_spec b : history.notNewline b = true <-> b <> x0a.
Proof. destruct b; vm_compute; split; congruence. Qed.

Lemma notNewline_Forall s :
  ~ In x0a s <-> Forall (fun b => history.notNewline b = true) s.
Proof.
  rewrite Forall_forall. split.
  - intros H b Hb. apply notNewline_spec. intros ->. contradiction.
  - intros H Hin. specialize (H _ Hin). apply notNewline_spec in H. congruence.
Qed.

Lemma byte_eqb_true a b : Byte.eqb a b = true <-> a = b.
Proof.
  split; [apply Byte.byte_dec_bl | apply Byte.byte_dec_lb].
Qed.

Lemma headerText_app ts el rest tail :
  headerText ts el rest ++ tail =
  x3a :: x20 :: ts ++ x3a :: el ++ x3b :: rest ++ tail.
Proof.
  unfold headerText. cbn [app]. f_equal. f_equal.
  rewrite <- app_assoc. f_equal. cbn [app]. f_equal.
  rewrite <- app_assoc. reflexivity.
Qed.

(** The pattern matches a header text, whatever follows it on further
    lines of the string, and captures the digit field and the remainder. *)
Lemma FindStringSubmatch_header ts el rest tail :
  digits ts -> 10 <= len ts -> digits el -> 1 <= len el ->
  rest <> [] -> ~ In x0a rest ->
  match tail with [] => True | b :: _ => b = x0a end ->
  history.FindStringSubmatch (headerText ts el rest ++ tail) =
  [headerText ts el rest; ts; rest].
Proof.
  intros Hts Hlts Hel Hlel Hrest Hnl Htail.
  rewrite headerText_app. unfold history.FindStringSubmatch.
  change (Byte.eqb x3a x3a && Byte.eqb x20 x20) with true. cbv beta iota zeta.
  rewrite (span_app history.isDigit ts) by (try assumption; reflexivity).
  destruct (Z.leb_spec 10 (len ts)); [|lia]. cbv beta iota zeta.
  change (Byte.eqb x3a x3a) with true. cbv beta iota zeta.
  rewrite (span_app history.isDigit el) by (try assumption; reflexivity).
  destruct (Z.leb_spec 1 (len el)); [|lia]. cbv beta iota zeta.
  change (Byte.eqb x3b x3b) with true. cbv beta iota zeta.
  rewrite (span_app history.notNewline rest).
  - destruct (Z.leb_spec 1 (len rest)) as [_|Hl].
    + unfold headerText. reflexivity.
    + destruct rest; [congruence|]. rewrite len_cons in Hl.
      pose proof (len_nonneg rest). lia.
  - apply notNewline_Forall. assumption.
  - destruct tail as [|b tail]; [exact I|]. subst b. reflexivity.
Qed.

(** Without a remainder the pattern does not match. *)
Lemma FindStringSubmatch_no_remainder ts el :
  digits ts -> digits el ->
  history.FindStringSubmatch (headerText ts el []) = [].
Proof.
  intros Hts Hel.
  rewrite <- (app_nil_r (headerText ts el [])), headerText_app.
  unfold history.FindStringSubmatch. cbn [app].
  change (Byte.eqb x3a x3a && Byte.eqb x20 x20) with true. cbv beta iota zeta.
  rewrite (span_app history.isDigit ts) by (try assumption; reflexivity).
  destruct (10 <=? len ts); [|reflexivity].
  change (Byte.eqb x3a x3a) with true. cbv beta iota zeta.
  rewrite (span_app history.isDigit el) by (try assumption; reflexivity).
  destruct (1 <=? len el); reflexivity.
Qed.

(** What the pattern matches is a header text, up to the end of the string
    or to a newline. *)
Lemma FindStringSubmatch_inv line :
  history.FindStringSubmatch line <> [] ->
  exists ts el rest tail,
    line = headerText ts el rest ++ tail /\
    digits ts /\ 10 <= len ts /\ digits el /\ 1 <= len el /\
    rest <> [] /\ ~ In x0a rest /\
    match tail with [] => True | b :: _ => b = x0a end.
Proof.
  unfold history.FindStringSubmatch.
  destruct line as [|c0 [|c1 r0]]; try congruence.
  destruct (Byte.eqb c0 x3a && Byte.eqb c1 x20) eqn:E01; [|congruence].
  apply andb_prop in E01 as [E0 E1].
  apply byte_eqb_true in E0, E1. subst c0 c1.
  destruct (history.span history.isDigit r0) as [ts r1] eqn:S1.
  destruct (Z.leb_spec 10 (len ts)); [|congruence].
  destruct r1 as [|c2 r2]; [congruence|].
  destruct (Byte.eqb c2 x3a) eqn:E2; [|congruence].
  apply byte_eqb_true in E2. subst c2.
  destruct (history.span history.isDigit r2) as [el r3] eqn:S2.
  destruct (Z.leb_spec 1 (len el)); [|congruence].
  destruct r3 as [|c3 r4]; [congruence|].
  destruct (Byte.eqb c3 x3b) eqn:E3; [|congruence].
  apply byte_eqb_true in E3. subst c3.
  destruct (history.span history.notNewline r4) as [cmd tail] eqn:S3.
  destruct (Z.leb_spec 1 (len cmd)); [|congruence].
  intros _.
  apply span_inv in S1 as (-> & Hts & _).
  apply span_inv in S2 as (-> & Hel & _).
  apply span_inv in S3 as (-> & Hcmd & Htail).
  exists ts, el, cmd, tail.
  repeat split; try assumption.
  - rewrite headerText_app. reflexivity.
  - intros ->. change (len (@nil byte)) with 0 in *. lia.
  - apply notNewline_Forall. assumption.
  - destruct tail as [|b tail]; [exact I|].
    destruct (Byte.byte_eq_dec b x0a) as [->|Hne]; [reflexivity|].
    apply notNewline_spec in Hne. congruence.
Qed.

Lemma FindStringSubmatch_len line :
  history.FindStringSubmatch line = [] \/ len (history.FindStringSubmatch line) = 3.
Proof.
  destruct (history.FindStringSubmatch line) as [|m ms] eqn:E; [left; reflexivity|].
  right. destruct (FindStringSubmatch_inv line) as (ts & el & rest & tail & -> & H);
    [congruence|].
  destruct H as (H1 & H2 & H3 & H4 & H5 & H6 & H7).
  rewrite FindStringSubmatch_header in E by assumption. rewrite <- E. reflexivity.
Qed.

(** On a line without a newline, the test of the loop holds exactly of the
    header lines. *)
Lemma isHeader_iff line :
  ~ In x0a (history.ensureValidUTF8 line) ->
  isHeader line = true <-> exists ts rest, headerLine line ts rest.
Proof.
  intros Hnl. unfold isHeader. split.
  - intros H. apply Z.eqb_eq in H.
    destruct (FindStringSubmatch_inv (history.ensureValidUTF8 line))
      as (ts & el & rest & tail & Heq & H1 & H2 & H3 & H4 & H5 & H6 & H7).
    { intros E. rewrite E in H. discriminate. }
    destruct tail as [|b tail].
    + rewrite app_nil_r in Heq. exists ts, rest, el. repeat split; assumption.
    + subst b. exfalso. apply Hnl. rewrite Heq. apply in_or_app. right. left. reflexivity.
  - intros (ts & rest & el & Heq & H1 & H2 & H3 & H4 & H5 & H6).
    rewrite Heq, <- (app_nil_r (headerText ts el rest)).
    rewrite FindStringSubmatch_header by (try assumption; exact I). reflexivity.
Qed.

(** ** The loop of [parseHistory] *)

Import history.

Lemma digits_ascii s : digits s -> Forall (fun b => u8 b < 0x80) s.
Proof.
  apply Forall_impl. intros b Hb. apply isDigit_range in Hb. lia.
Qed.

Lemma headerText_prefix_ascii ts el :
  digits ts -> digits el ->
  Forall (fun b => u8 b < 0x80) ([x3a; x20] ++ ts ++ [x3a] ++ el ++ [x3b]).
Proof.
  intros Hts Hel.
  repeat (apply Forall_app; split);
    try (apply digits_ascii; assumption);
    repeat constructor.
Qed.

Lemma headerText_split ts el rest :
  headerText ts el rest = ([x3a; x20] ++ ts ++ [x3a] ++ el ++ [x3b]) ++ rest.
Proof. unfold headerText. rewrite <- !app_assoc. reflexivity. Qed.

(** The remainder of a header line is well formed. *)
Lemma headerLine_rest_wf line ts rest : headerLine line ts rest -> wf rest.
Proof.
  intros (el & Heq & Hts & _ & Hel & _).
  pose proof (ensureValidUTF8_wf line) as Hw.
  rewrite Heq, headerText_split in Hw.
  eapply wf_inv_app_ascii; [|exact Hw]. apply headerText_prefix_ascii; assumption.
Qed.

Lemma FindStringSubmatch_headerLine line ts rest :
  headerLine line ts rest ->
  exists whole, FindStringSubmatch (ensureValidUTF8 line) = [whole; ts; rest].
Proof.
  intros (el & Heq & H1 & H2 & H3 & H4 & H5 & H6).
  exists (headerText ts el rest).
  rewrite Heq, <- (app_nil_r (headerText ts el rest)) at 1.
  apply FindStringSubmatch_header; try assumption. exact I.
Qed.

(** A header line closes the command being built and opens its own. *)
Lemma scanStep_header v line ts rest :
  headerLine line ts rest ->
  scanStep v line =
  {| allEntries := finalize v;
     currentCommand := rest;
     currentTimestamp := fst (strconv.ParseInt ts) |}.
Proof.
  intros H. pose proof (headerLine_rest_wf _ _ _ H) as Hw.
  destruct (FindStringSubmatch_headerLine _ _ _ H) as (whole & Hm).
  unfold scanStep. cbv zeta. rewrite Hm.
  change (len [whole; ts; rest] =? 3) with true. cbv iota.
  cbn [nth app]. rewrite ToValidUTF8_id by assumption. reflexivity.
Qed.

(** A line that the pattern does not match is added to the command being
    built, if there is one. *)
Lemma scanStep_continuation v line :
  isHeader line = false ->
  scanStep v line =
  if 0 <? len (currentCommand v) then
    {| allEntries := allEntries v;
       currentCommand :=
         (if strings.HasSuffix (currentCommand v) [x5c]
          then slice (currentCommand v) 0 (len (currentCommand v) - 1)
          else currentCommand v ++ [x0a]) ++ ensureValidUTF8 line;
       currentTimestamp := currentTimestamp v |}
  else v.
Proof.
  unfold isHeader. intros H. unfold scanStep. cbv zeta. rewrite H.
  destruct (0 <? len (currentCommand v)); [|reflexivity].
  destruct (strings.HasSuffix (currentCommand v) [x5c]); reflexivity.
Qed.

Lemma HasSuffix_backslash s :
  strings.HasSuffix s [x5c] = true <-> exists s', s = s' ++ [x5c].
Proof.
  unfold strings.HasSuffix, strings.eqb. rewrite len_cons.
  change (len (@nil byte)) with 0. split.
  - intros H. apply andb_prop in H as [Hl He].
    apply Z.leb_le in Hl.
    destruct s as [|b s] using rev_ind; [cbn in Hl; lia|]. clear IHs.
    exists s. f_equal.
    rewrite len_app, len_cons in He. change (len (@nil byte)) with 0 in He.
    replace (len s + (0 + 1) - (0 + 1)) with (len s) in He by lia.
    replace (len s + (0 + 1)) with (len (s ++ [b])) in He
      by (rewrite len_app, len_cons; reflexivity).
    rewrite slice_app_r in He.
    destruct (list_eq_dec byte_eq_dec [b] [x5c]) as [E|E]; [exact E | discriminate].
  - intros (s' & ->). apply andb_true_intro. split.
    + rewrite len_app, len_cons. pose proof (len_nonneg s'). apply Z.leb_le.
      change (len (@nil byte)) with 0. lia.
    + replace (len (s' ++ [x5c]) - (0 + 1)) with (len s')
        by (rewrite len_app, len_cons; change (len (@nil byte)) with 0; lia).
      rewrite slice_app_r.
      destruct (list_eq_dec byte_eq_dec [x5c] [x5c]); [reflexivity | congruence].
Qed.

Lemma slice_drop_last s b : slice (s ++ [b]) 0 (len (s ++ [b]) - 1) = s.
Proof.
  replace (len (s ++ [b]) - 1) with (len s)
    by (rewrite len_app, len_cons; change (len (@nil byte)) with 0; lia).
  apply slice_prefix.
Qed.

Lemma len_pos_iff (s : list byte) : (0 <? len s) = true <-> s <> [].
Proof.
  destruct s; [cbn; split; [discriminate | congruence]|].
  rewrite len_cons. pose proof (len_nonneg s). split; [discriminate|].
  intros _. apply Z.ltb_lt. lia.
Qed.

(** The entries of a turn of the loop are those of [finalize] before it,
    or the ones it had. *)
Lemma finalize_open v :
  currentCommand v <> [] -> wf (currentCommand v) ->
  finalize v =
  allEntries v ++ [ {| Timestamp := currentTimestamp v;
                       Command := strings.TrimSpace (currentCommand v) |} ].
Proof.
  intros Hne Hw. unfold finalize. apply len_pos_iff in Hne. rewrite Hne.
  rewrite ToValidUTF8_id by (apply TrimSpace_wf; assumption). reflexivity.
Qed.

Lemma finalize_closed v : currentCommand v = [] -> finalize v = allEntries v.
Proof. intros E. unfold finalize. rewrite E. reflexivity. Qed.

(** ** The invariant of the loop *)

Lemma cleanCommand_TrimSpace s : wf s -> cleanCommand (strings.TrimSpace s).
Proof.
  intros Hs. pose proof (TrimSpace_wf _ Hs) as Hw. repeat split.
  - apply Valid_iff. assumption.
  - assumption.
  - apply TrimSpace_noLeadingSpace. assumption.
  - apply TrimSpace_noTrailingSpace. assumption.
Qed.

Lemma finalize_clean v :
  wf (currentCommand v) ->
  Forall (fun e => cleanCommand (Command e)) (allEntries v) ->
  Forall (fun e => cleanCommand (Command e)) (finalize v).
Proof.
  intros Hw Hall. unfold finalize.
  destruct (0 <? len (currentCommand v)); [|assumption].
  apply Forall_app. split; [assumption|]. constructor; [|constructor].
  cbn [Command]. rewrite ToValidUTF8_id by (apply TrimSpace_wf; assumption).
  apply cleanCommand_TrimSpace. assumption.
Qed.

Lemma scanStep_inv v line :
  wf (currentCommand v) ->
  Forall (fun e => cleanCommand (Command e)) (allEntries v) ->
  wf (currentCommand (scanStep v line)) /\
  Forall (fun e => cleanCommand (Command e)) (allEntries (scanStep v line)).
Proof.
  intros Hw Hall. unfold scanStep. cbv zeta.
  destruct (len (FindStringSubmatch (ensureValidUTF8 line)) =? 3).
  - cbn [currentCommand allEntries app]. split.
    + apply ToValidUTF8_wf, wf_replacement.
    + apply finalize_clean; assumption.
  - destruct (0 <? len (currentCommand v)); [|split; assumption].
    destruct (strings.HasSuffix (currentCommand v) [x5c]) eqn:Hs;
      cbn [currentCommand allEntries app]; (split; [|assumption]).
    + apply HasSuffix_backslash in Hs as (s' & Es). rewrite Es in *.
      rewrite slice_drop_last. apply wf_app; [|apply ensureValidUTF8_wf].
      apply (wf_inv_snoc_ascii s' x5c); [assumption | reflexivity].
    + apply wf_app; [|apply ensureValidUTF8_wf].
      apply wf_app; [assumption|]. apply wf_enc. reflexivity.
Qed.

Lemma fold_scanStep_inv ls : forall v,
  wf (currentCommand v) ->
  Forall (fun e => cleanCommand (Command e)) (allEntries v) ->
  wf (currentCommand (fold_left scanStep ls v)) /\
  Forall (fun e => cleanCommand (Command e)) (allEntries (fold_left scanStep ls v)).
Proof.
  induction ls as [|l ls IH]; intros v Hw Hall; cbn [fold_left].
  - split; assumption.
  - destruct (scanStep_inv v l Hw Hall) as [Hw' Hall']. apply IH; assumption.
Qed.

(** Header lines only: every line closes the command of the line before it. *)
Lemma fold_scanStep_headers ls recs :
  Forall2 (fun line r => exists ts rest, headerLine line ts rest /\ r = entryOf ts rest)
          ls recs ->
  forall v, wf (currentCommand v) ->
  finalize (fold_left scanStep ls v) = finalize v ++ recs.
Proof.
  induction 1 as [|line r ls recs (ts & rest & Hh & ->) _ IH]; intros v Hw;
    cbn [fold_left].
  - symmetry. apply app_nil_r.
  - pose proof (headerLine_rest_wf _ _ _ Hh) as Hrest.
    rewrite IH by (rewrite (scanStep_header _ _ _ _ Hh); exact Hrest).
    rewrite (scanStep_header _ _ _ _ Hh).
    rewrite (finalize_open {| allEntries := finalize v; currentCommand := rest;
                              currentTimestamp := fst (strconv.ParseInt ts) |}).
    + cbn [allEntries currentCommand currentTimestamp]. rewrite <- app_assoc. reflexivity.
    + destruct Hh as (el & _ & _ & _ & _ & _ & Hne & _). exact Hne.
    + exact Hrest.
Qed.

Lemma fold_scanStep_orphans orphans :
  Forall (fun l => isHeader l = false) orphans ->
  forall v, currentCommand v = [] -> fold_left scanStep orphans v = v.
Proof.
  induction 1 as [|l ls Hl _ IH]; intros v Hv; cbn [fold_left]; [reflexivity|].
  rewrite (scanStep_continuation _ _ Hl), Hv. cbn. apply IH. assumption.
Qed.

(** ** The embedding on known inputs *)

(** Cases of the tests and of the documentation of the Go packages. *)

Example DecodeRuneInString_euro :
  utf8.DecodeRuneInString [xe2; x82; xac; x41] = (0x20AC, 3).
Proof. reflexivity. Qed.

Example DecodeLastRuneInString_euro :
  utf8.DecodeLastRuneInString [x41; xe2; x82; xac] = (0x20AC, 3).
Proof. reflexivity. Qed.

Example Valid_surrogate : utf8.Valid [xed; xa0; x80] = false.
Proof. reflexivity. Qed.

Example Valid_overlong : utf8.Valid [xc0; xaf] = false.
Proof. reflexivity. Qed.

Example Valid_max : utf8.Valid [xf4; x8f; xbf; xbf] = true.
Proof. reflexivity. Qed.

Example ToValidUTF8_runs :
  strings.ToValidUTF8 ([x61; xff; x62; xc0; xaf; x63; xff]) replacement
  = [x61] ++ replacement ++ [x62] ++ replacement ++ [x63] ++ replacement.
Proof. reflexivity. Qed.

Example TrimSpace_ascii :
  strings.TrimSpace ([x20; x09; x0a; x20] ++ str "Hello, Gophers" ++ [x20; x0a; x09; x0d; x0a])
  = str "Hello, Gophers".
Proof. reflexivity. Qed.

Example TrimSpace_unicode :
  strings.TrimSpace ([xe2; x80; x83; x20] ++ str "a b" ++ [xc2; xa0; xe3; x80; x80])
  = str "a b".
Proof. reflexivity. Qed.

Example ParseInt_max :
  strconv.ParseInt (str "9223372036854775807") = (9223372036854775807, None).
Proof. reflexivity. Qed.

Example ParseInt_above_max :
  strconv.ParseInt (str "9223372036854775808")
  = (9223372036854775807, Some strconv.ErrRange).
Proof. reflexivity. Qed.

Example ParseInt_syntax :
  strconv.ParseInt (str "12a") = (0, Some strconv.ErrSyntax).
Proof. reflexivity. Qed.

(** The one-line case of the specification. *)
Example parseHistory_one_line :
  parseHistory {| lines := [str ": 1700000000:0;ls -la"]; readErr := None |}
  = ([ {| Timestamp := 1700000000; Command := str "ls -la" |} ], None).
Proof. reflexivity. Qed.

(** A command, once a backslash has emptied it, takes no further line. *)
Example parseHistory_emptied_command :
  parseHistory {| lines := [str ": 1700000000:0;" ++ [x5c]; []; str "ls"];
                  readErr := None |}
  = ([], None).
Proof. reflexivity. Qed.

(** ** The properties of the specification *)

(** C1. On an input of header lines only, read without error,
    [parseHistory] returns one record for each line, in the order of the
    lines: the record of a line has the timestamp that [strconv.ParseInt]
    reads from its digit field, and its remainder without leading and
    trailing white space as command. *)
Theorem parseHistory_header_lines (ls : list (list byte)) (recs : list HistoryEntry) :
  Forall2 (fun line r => exists ts rest, headerLine line ts rest /\ r = entryOf ts rest)
          ls recs ->
  parseHistory {| lines := ls; readErr := None |} = (recs, None).
Proof.
  intros H. unfold parseHistory. cbn [lines readErr].
  rewrite (fold_scanStep_headers ls recs H initVars) by apply wf_nil.
  reflexivity.
Qed.

Lemma parseHistory_header_lines_witness :
  parseHistory {| lines := [str ": 1700000000:0;ls -la"; str ": 1700000001:12; pwd "];
                  readErr := None |}
  = ([ {| Timestamp := 1700000000; Command := str "ls -la" |};
       {| Timestamp := 1700000001; Command := str "pwd" |} ], None).
Proof.
  apply (parseHistory_header_lines
           [str ": 1700000000:0;ls -la"; str ": 1700000001:12; pwd "]).
  constructor; [|constructor; [|constructor]].
  - exists (str "1700000000"), (str "ls -la"). split; [|vm_compute; reflexivity].
    exists (str "0"). repeat split; try (vm_compute; (reflexivity || discriminate)).
    + repeat constructor.
    + repeat constructor.
    + vm_compute. intuition discriminate.
  - exists (str "1700000001"), (str " pwd "). split; [|vm_compute; reflexivity].
    exists (str "12"). repeat split; try (vm_compute; (reflexivity || discriminate)).
    + repeat constructor.
    + repeat constructor.
    + vm_compute. intuition discriminate.
Defined.

(** C2, as the code has it. On the line [: 1700000100:0;git commit -m 'fix ]
    with a backslash (the byte [x5c]) at its end, followed by the line
    [bug'], [parseHistory] returns one record, of timestamp 1700000100 and
    command [git commit -m 'fix bug']: the backslash is removed and the next
    line is added with no separator and no newline; the space before the
    backslash stays. *)
Theorem parseHistory_escaped_join :
  parseHistory {| lines := [str ": 1700000100:0;git commit -m 'fix " ++ [x5c]; str "bug'"];
                  readErr := None |}
  = ([ {| Timestamp := 1700000100; Command := str "git commit -m 'fix bug'" |} ], None).
Proof. vm_compute. reflexivity. Qed.

(** C2, as the specification states it, fails: the command is not
    [git commit -m 'fixbug']. *)
Lemma parseHistory_escaped_join_counterexample :
  parseHistory {| lines := [str ": 1700000100:0;git commit -m 'fix " ++ [x5c]; str "bug'"];
                  readErr := None |}
  <> ([ {| Timestamp := 1700000100; Command := str "git commit -m 'fixbug'" |} ], None).
Proof. vm_compute. discriminate. Qed.

(** C3. On the line [: 1700000200:0;echo hello] followed by the line [world],
    [parseHistory] returns one record, whose command is [echo hello], a
    newline and [world]. *)
Theorem parseHistory_literal_join :
  parseHistory {| lines := [str ": 1700000200:0;echo hello"; str "world"];
                  readErr := None |}
  = ([ {| Timestamp := 1700000200;
          Command := str "echo hello" ++ [x0a] ++ str "world" |} ], None).
Proof. vm_compute. reflexivity. Qed.

(** C4. [applyLimitFilter] returns the entries as they are when the limit is
    not positive or not below their number, and else their last [limit]
    ones, in their order: the oldest [len entries - limit] are dropped. *)
Theorem applyLimitFilter_window (entries : list HistoryEntry) (limit : Z) :
  (limit <= 0 \/ len entries <= limit -> applyLimitFilter entries limit = entries) /\
  (0 < limit < len entries ->
   exists dropped,
     entries = dropped ++ applyLimitFilter entries limit /\
     len (applyLimitFilter entries limit) = limit /\
     len dropped = len entries - limit).
Proof.
  unfold applyLimitFilter, slice_entries. split.
  - intros H.
    destruct (Z.leb_spec limit 0); [reflexivity|].
    destruct (Z.leb_spec (len entries) limit); [reflexivity | lia].
  - intros H.
    destruct (Z.leb_spec limit 0); [lia|].
    destruct (Z.leb_spec (len entries) limit); [lia|]. cbn [orb].
    exists (firstn (Z.to_nat (len entries - limit)) entries).
    split; [symmetry; apply firstn_skipn|].
    unfold len in *. rewrite length_skipn, length_firstn. lia.
Qed.

Lemma applyLimitFilter_window_witness :
  let e (n : Z) := {| Timestamp := n; Command := str "ls" |} in
  applyLimitFilter [e 1; e 2; e 3] 0 = [e 1; e 2; e 3] /\
  applyLimitFilter [e 1; e 2; e 3] 5 = [e 1; e 2; e 3] /\
  exists dropped,
    [e 1; e 2; e 3] = dropped ++ applyLimitFilter [e 1; e 2; e 3] 2 /\
    len (applyLimitFilter [e 1; e 2; e 3] 2) = 2 /\
    len dropped = len [e 1; e 2; e 3] - 2.
Proof.
  intros e. split; [|split].
  - apply (applyLimitFilter_window [e 1; e 2; e 3] 0). left. lia.
  - apply (applyLimitFilter_window [e 1; e 2; e 3] 5). right. vm_compute. discriminate.
  - apply (applyLimitFilter_window [e 1; e 2; e 3] 2). vm_compute. split; reflexivity.
Defined.

(** C5, as the code has it. A header line whose digit field
    [strconv.ParseInt] rejects still gives its record, with its command; the
    timestamp is the largest [int64], 9223372036854775807, which [ParseInt]
    returns next to its range error. The records of the lines before it
    are not touched. *)
Theorem parseHistory_timestamp_out_of_range
        (pre : list (list byte)) (line ts rest : list byte) :
  headerLine line ts rest ->
  snd (strconv.ParseInt ts) <> None ->
  parseHistory {| lines := pre ++ [line]; readErr := None |}
  = (fst (parseHistory {| lines := pre; readErr := None |})
     ++ [ {| Timestamp := 9223372036854775807;
             Command := strings.TrimSpace rest |} ], None).
Proof.
  intros Hh Herr.
  unfold parseHistory. cbn [lines readErr fst].
  rewrite fold_left_app. cbn [fold_left].
  rewrite (scanStep_header _ _ _ _ Hh).
  pose proof Hh as (el & _ & Hts & Hl & _).
  assert (Hne : ts <> []).
  { intros ->. change (len (@nil byte)) with 0 in Hl. lia. }
  rewrite (ParseInt_digits_error ts Hts Hne Herr).
  rewrite finalize_open.
  - reflexivity.
  - destruct Hh as (? & _ & _ & _ & _ & _ & H & _). exact H.
  - exact (headerLine_rest_wf _ _ _ Hh).
Qed.

Lemma parseHistory_timestamp_out_of_range_witness :
  parseHistory {| lines := [str ": 1700000000:0;pwd"] ++ [str ": 99999999999999999999:0;ls"];
                  readErr := None |}
  = (fst (parseHistory {| lines := [str ": 1700000000:0;pwd"]; readErr := None |})
     ++ [ {| Timestamp := 9223372036854775807;
             Command := strings.TrimSpace (str "ls") |} ], None).
Proof.
  apply (parseHistory_timestamp_out_of_range
           [str ": 1700000000:0;pwd"] (str ": 99999999999999999999:0;ls")
           (str "99999999999999999999") (str "ls")).
  - exists (str "0"). repeat split; try (vm_compute; (reflexivity || discriminate)).
    + repeat constructor.
    + repeat constructor.
    + vm_compute. intuition discriminate.
  - vm_compute. discriminate.
Defined.

(** C5, as the specification states it, fails: on the header line
    [: 99999999999999999999:0;ls] the digit field does not parse, and the
    timestamp of the record is not 0. *)
Lemma parseHistory_timestamp_out_of_range_counterexample :
  headerLine (str ": 99999999999999999999:0;ls") (str "99999999999999999999") (str "ls") /\
  snd (strconv.ParseInt (str "99999999999999999999")) <> None /\
  parseHistory {| lines := [str ": 99999999999999999999:0;ls"]; readErr := None |}
  = ([ {| Timestamp := 9223372036854775807; Command := str "ls" |} ], None) /\
  ~ (exists c, parseHistory {| lines := [str ": 99999999999999999999:0;ls"];
                              readErr := None |}
               = ([ {| Timestamp := 0; Command := c |} ], None)).
Proof.
  split; [|split; [|split]].
  - exists (str "0"). repeat split; try (vm_compute; (reflexivity || discriminate)).
    + repeat constructor.
    + repeat constructor.
    + vm_compute. intuition discriminate.
  - vm_compute. discriminate.
  - vm_compute. reflexivity.
  - intros (c & H). vm_compute in H. discriminate.
Qed.

(** C6. When the scanner reports a read error, after any lines at all,
    [parseHistory] returns the error and no entries, and so does
    [ReadHistory]: the caller sees nothing of the lines read before. *)
Theorem parseHistory_read_error (ls : list (list byte)) (err : error) (limit : Z) :
  parseHistory {| lines := ls; readErr := Some err |}
  = ([], Some (Errorf "error reading history data: %w" err)) /\
  ReadHistory (inr {| lines := ls; readErr := Some err |}) limit
  = ([], Some (Errorf "error reading history data: %w" err)).
Proof.
  unfold ReadHistory, parseHistory. cbn [readErr]. split; reflexivity.
Qed.

(** C7. The command of every record that [parseHistory] returns, the last
    one included, is valid UTF-8 and neither begins nor ends with a white
    space character; and every line goes through [ensureValidUTF8], which
    keeps its well-formed sequences and puts one U+FFFD in the place of
    each run of malformed bytes, before it reaches a command. *)
Theorem parseHistory_commands_clean (reader : Reader) :
  Forall (fun l => sanitized false l (ensureValidUTF8 l)) (lines reader) /\
  Forall (fun e => cleanCommand (Command e)) (fst (parseHistory reader)).
Proof.
  split.
  - apply Forall_forall. intros l _. apply ensureValidUTF8_sanitized.
  - unfold parseHistory.
    destruct (fold_scanStep_inv (lines reader) initVars wf_nil (Forall_nil _))
      as [Hw Hall].
    destruct (readErr reader); cbn [fst]; [constructor|].
    apply finalize_clean; assumption.
Qed.

(** C8. Lines that the pattern does not match and that come before every
    header line change nothing: the result is that of the input without
    them, records and error alike. *)
Theorem parseHistory_orphan_lines
        (orphans ls : list (list byte)) (err : option error) :
  Forall (fun l => isHeader l = false) orphans ->
  parseHistory {| lines := orphans ++ ls; readErr := err |}
  = parseHistory {| lines := ls; readErr := err |}.
Proof.
  intros H. unfold parseHistory. cbn [lines readErr].
  rewrite fold_left_app, (fold_scanStep_orphans orphans H initVars eq_refl).
  reflexivity.
Qed.

Lemma parseHistory_orphan_lines_witness :
  parseHistory {| lines := [str "bug'"; str ": 17:0;x"] ++ [str ": 1700000000:0;ls -la"];
                  readErr := None |}
  = parseHistory {| lines := [str ": 1700000000:0;ls -la"]; readErr := None |}.
Proof.
  apply (parseHistory_orphan_lines [str "bug'"; str ": 17:0;x"]).
  repeat constructor.
Defined.

(** C9. On the empty input, read without error, [parseHistory] returns no
    entries and no error. *)
Theorem parseHistory_empty :
  parseHistory {| lines := []; readErr := None |} = ([], None).
Proof. reflexivity. Qed.

(** C10. A line with the marker, at least ten digits, a colon, digits and a
    semicolon, and nothing after the semicolon, is no header line: the loop
    starts no record from it and leaves the entries and the timestamp as
    they are. With no command being built the line is dropped; else it is
    added to the command like any other line, straight after a backslash at
    the end of the command, which is removed, or after a newline. *)
Theorem scanStep_header_without_remainder (v : vars) (ts el : list byte) :
  digits ts -> 10 <= len ts -> digits el -> 1 <= len el ->
  let line := headerText ts el [] in
  isHeader line = false /\
  (currentCommand v = [] -> scanStep v line = v) /\
  (forall c, currentCommand v = c ++ [x5c] ->
             scanStep v line =
             {| allEntries := allEntries v;
                currentCommand := c ++ line;
                currentTimestamp := currentTimestamp v |}) /\
  (currentCommand v <> [] ->
   (forall c, currentCommand v <> c ++ [x5c]) ->
   scanStep v line =
   {| allEntries := allEntries v;
      currentCommand := currentCommand v ++ [x0a] ++ line;
      currentTimestamp := currentTimestamp v |}).
Proof.
  intros Hts Hlts Hel Hlel line.
  assert (Hline : ensureValidUTF8 line = line).
  { apply ensureValidUTF8_id, wf_ascii. unfold line.
    rewrite headerText_split, app_nil_r. apply headerText_prefix_ascii; assumption. }
  assert (Hh : isHeader line = false).
  { unfold isHeader. rewrite Hline. unfold line.
    rewrite FindStringSubmatch_no_remainder by assumption. reflexivity. }
  split; [exact Hh|]. rewrite (scanStep_continuation _ _ Hh), Hline.
  split; [|split].
  - intros ->. reflexivity.
  - intros c Hc. rewrite Hc.
    assert (Hs : strings.HasSuffix (c ++ [x5c]) [x5c] = true)
      by (apply HasSuffix_backslash; exists c; reflexivity).
    rewrite Hs, slice_drop_last.
    assert (Hp : (0 <? len (c ++ [x5c])) = true)
      by (apply len_pos_iff; destruct c; discriminate).
    rewrite Hp. reflexivity.
  - intros Hne Hnb. apply len_pos_iff in Hne. rewrite Hne.
    destruct (strings.HasSuffix (currentCommand v) [x5c]) eqn:Hs.
    + apply HasSuffix_backslash in Hs as (c & Hc). exfalso. exact (Hnb c Hc).
    + rewrite <- app_assoc. reflexivity.
Qed.

Lemma scanStep_header_without_remainder_witness :
  let v := {| allEntries := []; currentCommand := str "echo " ++ [x5c];
              currentTimestamp := 1700000000 |} in
  let line := headerText (str "1700000100") (str "0") [] in
  isHeader line = false /\
  scanStep v line =
  {| allEntries := []; currentCommand := str "echo " ++ line;
     currentTimestamp := 1700000000 |}.
Proof.
  intros v line.
  assert (Hd : digits (str "1700000100")) by repeat constructor.
  assert (Hl : 10 <= len (str "1700000100")) by (vm_compute; discriminate).
  assert (He : digits (str "0")) by repeat constructor.
  assert (Hm : 1 <= len (str "0")) by (vm_compute; discriminate).
  pose proof (scanStep_header_without_remainder v (str "1700000100") (str "0")
                Hd Hl He Hm) as (H1 & _ & H2 & _).
  split; [exact H1|]. exact (H2 (str "echo ") eq_refl).
Defined.

(** * Further properties of the history reader *)

(** ** [ensureValidUTF8] *)

Lemma sanitized_len inv s s' : sanitized inv s s' -> len s' <= 3 * len s.
Proof.
  induction 1 as [inv | inv e s s' He Hs IH | inv b s s' Hb Hs IH].
  - change (len (@nil byte)) with 0. lia.
  - rewrite !len_app. pose proof (len_nonneg e). lia.
  - rewrite len_app, len_cons. pose proof (len_nonneg s).
    destruct inv; [change (len (@nil byte)) with 0 | change (len [xef; xbf; xbd]) with 3]; lia.
Qed.

Lemma sanitized_nonempty s s' : sanitized false s s' -> s <> [] -> s' <> [].
Proof.
  intros H Hne. inversion H as [| ? e t t' He _ | ? b t t' _ _]; subst.
  - congruence.
  - destruct e; [discriminate | cbn [app]; discriminate].
  - cbn [app]. discriminate.
Qed.

Lemma sanitized_In inv s s' b :
  sanitized inv s s' -> In b s' -> In b s \/ In b [xef; xbf; xbd].
Proof.
  induction 1 as [inv | inv e s s' He Hs IH | inv c s s' Hc Hs IH]; intros Hin.
  - contradiction.
  - apply in_app_or in Hin as [Hin | Hin].
    + left. apply in_or_app. left. exact Hin.
    + destruct (IH Hin) as [H' | H']; [left; apply in_or_app; right; exact H' | right; exact H'].
  - apply in_app_or in Hin as [Hin | Hin].
    + right. destruct inv; [contradiction | exact Hin].
    + destruct (IH Hin) as [H' | H']; [left; right; exact H' | right; exact H'].
Qed.

Lemma ensureValidUTF8_newline l : In x0a (ensureValidUTF8 l) -> In x0a l.
Proof.
  intros Hin.
  destruct (sanitized_In _ _ _ _ (ensureValidUTF8_sanitized l) Hin) as [H | H];
    [exact H|].
  cbn in H. repeat (destruct H as [H | H]; [discriminate|]). contradiction.
Qed.

(** X1. Whatever the bytes of the line, [ensureValidUTF8] returns valid
    UTF-8, and applying it again changes nothing. *)
Theorem ensureValidUTF8_valid_idempotent (l : list byte) :
  utf8.Valid (ensureValidUTF8 l) = true /\
  ensureValidUTF8 (ensureValidUTF8 l) = ensureValidUTF8 l.
Proof.
  pose proof (ensureValidUTF8_wf l) as Hw. split.
  - apply Valid_iff. exact Hw.
  - apply ensureValidUTF8_id. exact Hw.
Qed.

(** X2. [ensureValidUTF8] never drops a line and never makes it longer than
    three times its length: the result is empty for the empty line only,
    and a newline is in the result only if it is in the line. *)
Theorem ensureValidUTF8_keeps_line (l : list byte) :
  (ensureValidUTF8 l = [] <-> l = []) /\
  len (ensureValidUTF8 l) <= 3 * len l /\
  (In x0a (ensureValidUTF8 l) -> In x0a l).
Proof.
  pose proof (ensureValidUTF8_sanitized l) as Hs. split; [|split].
  - split.
    + intros E. destruct l as [|b l]; [reflexivity|]. exfalso.
      apply (sanitized_nonempty _ _ Hs); [discriminate | exact E].
    + intros ->. reflexivity.
  - exact (sanitized_len _ _ _ Hs).
  - apply ensureValidUTF8_newline.
Qed.

Lemma ensureValidUTF8_keeps_line_witness :
  In x0a (ensureValidUTF8 [xff; x0a]) /\ In x0a [xff; x0a].
Proof.
  split.
  - vm_compute. do 3 right. left. reflexivity.
  - apply (proj2 (proj2 (ensureValidUTF8_keeps_line [xff; x0a]))).
    vm_compute. do 3 right. left. reflexivity.
Defined.

(** ** The test of the loop *)

(** X3. On a line of the scanner, which holds no newline, the loop takes
    the line for a header exactly when its text, once sanitized, is the
    marker, at least ten digits, a colon, at least one digit, a semicolon
    and a non-empty remainder. *)
Theorem isHeader_header_lines (line : list byte) :
  ~ In x0a line ->
  isHeader line = true <-> exists ts rest, headerLine line ts rest.
Proof.
  intros Hnl. apply isHeader_iff. intros Hin. apply Hnl.
  apply ensureValidUTF8_newline. exact Hin.
Qed.

Lemma isHeader_header_lines_witness :
  isHeader (str ": 1700000000:0;ls -la") = true <->
  exists ts rest, headerLine (str ": 1700000000:0;ls -la") ts rest.
Proof.
  apply (isHeader_header_lines (str ": 1700000000:0;ls -la")).
  vm_compute. intuition discriminate.
Defined.

(** ** A header line closes what comes before it *)

Lemma finalize_withEntriesBefore before v :
  finalize (withEntriesBefore before v) = before ++ finalize v.
Proof.
  unfold finalize, withEntriesBefore. cbn [allEntries currentCommand currentTimestamp].
  destruct (0 <? len (currentCommand v)); [symmetry; apply app_assoc | reflexivity].
Qed.

Lemma scanStep_withEntriesBefore before v l :
  scanStep (withEntriesBefore before v) l = withEntriesBefore before (scanStep v l).
Proof.
  unfold scanStep. cbv zeta.
  destruct (len (FindStringSubmatch (ensureValidUTF8 l)) =? 3).
  - rewrite finalize_withEntriesBefore. reflexivity.
  - change (currentCommand (withEntriesBefore before v)) with (currentCommand v).
    destruct (0 <? len (currentCommand v)); [|reflexivity].
    destruct (strings.HasSuffix (currentCommand v) [x5c]); reflexivity.
Qed.

Lemma fold_scanStep_withEntriesBefore before ls : forall v,
  fold_left scanStep ls (withEntriesBefore before v)
  = withEntriesBefore before (fold_left scanStep ls v).
Proof.
  induction ls as [|l ls IH]; intros v; cbn [fold_left]; [reflexivity|].
  rewrite scanStep_withEntriesBefore. apply IH.
Qed.

Lemma scanStep_isHeader v h :
  isHeader h = true ->
  scanStep v h = withEntriesBefore (finalize v) (scanStep initVars h).
Proof.
  unfold isHeader. intros H. unfold scanStep. cbv zeta. rewrite H.
  unfold withEntriesBefore. cbn [allEntries currentCommand currentTimestamp finalize initVars].
  change (0 <? len (@nil byte)) with false. cbv iota. rewrite app_nil_r. reflexivity.
Qed.

(** X4. A header line cuts the input in two: the records of the whole are
    the records of the lines before it, followed by the records of the
    lines from it on. *)
Theorem parseHistory_cut_at_header (pre post : list (list byte)) (h : list byte) :
  isHeader h = true ->
  fst (parseHistory {| lines := pre ++ h :: post; readErr := None |})
  = fst (parseHistory {| lines := pre; readErr := None |})
    ++ fst (parseHistory {| lines := h :: post; readErr := None |}).
Proof.
  intros Hh. unfold parseHistory. cbn [lines readErr fst].
  rewrite fold_left_app. cbn [fold_left].
  rewrite (scanStep_isHeader (fold_left scanStep pre initVars) h Hh).
  rewrite fold_scanStep_withEntriesBefore, finalize_withEntriesBefore.
  reflexivity.
Qed.

Lemma parseHistory_cut_at_header_witness :
  fst (parseHistory {| lines := [str ": 1700000000:0;ls"; str "-la"]
                                  ++ str ": 1700000001:0;pwd" :: [str "x"];
                       readErr := None |})
  = fst (parseHistory {| lines := [str ": 1700000000:0;ls"; str "-la"]; readErr := None |})
    ++ fst (parseHistory {| lines := str ": 1700000001:0;pwd" :: [str "x"];
                            readErr := None |}).
Proof.
  apply (parseHistory_cut_at_header [str ": 1700000000:0;ls"; str "-la"] [str "x"]
                                    (str ": 1700000001:0;pwd")).
  vm_compute. reflexivity.
Defined.

(** ** The number of records *)

Lemma length_finalize_le v :
  (length (finalize v) <= S (length (allEntries v)))%nat.
Proof.
  unfold finalize. destruct (0 <? len (currentCommand v)).
  - rewrite length_app. cbn [length]. lia.
  - lia.
Qed.

Lemma scanStep_isHeader_entries v h :
  isHeader h = true -> allEntries (scanStep v h) = finalize v.
Proof.
  unfold isHeader. intros H. unfold scanStep. cbv zeta. rewrite H. reflexivity.
Qed.

Lemma length_finalize_scanStep v l :
  (length (finalize (scanStep v l))
   <= length (finalize v) + (if isHeader l then 1 else 0))%nat.
Proof.
  destruct (isHeader l) eqn:Hl.
  - pose proof (length_finalize_le (scanStep v l)) as H.
    rewrite (scanStep_isHeader_entries v l Hl) in H. lia.
  - rewrite (scanStep_continuation v l Hl).
    destruct (0 <? len (currentCommand v)) eqn:Hc; [|lia].
    match goal with |- (length (finalize ?v') <= _)%nat =>
      pose proof (length_finalize_le v') as H end.
    cbn [allEntries] in H.
    unfold finalize at 2. rewrite Hc, length_app. cbn [length]. lia.
Qed.

(** X5. There are never more records than header lines: every record comes
    from a header line, and lines that are no header add none. *)
Theorem parseHistory_records_le_headers (reader : Reader) :
  len (fst (parseHistory reader)) <= len (filter isHeader (lines reader)).
Proof.
  assert (H : forall ls v,
             (length (finalize (fold_left scanStep ls v))
              <= length (finalize v) + length (filter isHeader ls))%nat).
  { induction ls as [|l ls IH]; intros v; cbn [fold_left filter]; [lia|].
    specialize (IH (scanStep v l)). pose proof (length_finalize_scanStep v l).
    destruct (isHeader l); cbn [length]; lia. }
  unfold parseHistory. specialize (H (lines reader) initVars).
  destruct (readErr reader); cbn [fst]; unfold len.
  - cbn [length]. lia.
  - change (finalize initVars) with (@nil HistoryEntry) in H.
    cbn [length] in H. lia.
Qed.

(** ** A header line and the line after it *)

Lemma headerLine_nonempty h ts rest : headerLine h ts rest -> rest <> [].
Proof. intros (el & _ & _ & _ & _ & _ & H & _). exact H. Qed.

Lemma scanStep_after_header v h ts rest l :
  headerLine h ts rest -> isHeader l = false ->
  scanStep (scanStep v h) l =
  {| allEntries := finalize v;
     currentCommand :=
       (if strings.HasSuffix rest [x5c]
        then slice rest 0 (len rest - 1) else rest ++ [x0a]) ++ ensureValidUTF8 l;
     currentTimestamp := fst (strconv.ParseInt ts) |}.
Proof.
  intros Hh Hl. rewrite (scanStep_header _ _ _ _ Hh), (scanStep_continuation _ _ Hl).
  cbn [allEntries currentCommand currentTimestamp].
  pose proof (headerLine_nonempty _ _ _ Hh) as Hne. apply len_pos_iff in Hne.
  rewrite Hne. reflexivity.
Qed.



(** X7. The literal join, on every input: when the remainder of a header
    line does not end with a backslash and the next line is no header,
    the two lines give one record, whose command is the remainder, a
    newline and the next line, trimmed. *)
Theorem parseHistory_newline_joins
        (pre : list (list byte)) (h ts rest l : list byte) :
  headerLine h ts rest ->
  (forall r, rest <> r ++ [x5c]) ->
  isHeader l = false ->
  parseHistory {| lines := pre ++ [h; l]; readErr := None |}
  = (fst (parseHistory {| lines := pre; readErr := None |})
     ++ [ {| Timestamp := fst (strconv.ParseInt ts);
             Command := strings.TrimSpace (rest ++ [x0a] ++ ensureValidUTF8 l) |} ], None).
Proof.
  intros Hh Hnb Hl. unfold parseHistory. cbn [lines readErr fst].
  rewrite fold_left_app. cbn [fold_left].
  rewrite (scanStep_after_header _ _ _ _ _ Hh Hl).
  destruct (strings.HasSuffix rest [x5c]) eqn:Hs.
  { apply HasSuffix_backslash in Hs as (r & Hr). exfalso. exact (Hnb r Hr). }
  rewrite <- app_assoc. rewrite finalize_open; [reflexivity | |].
  - cbn [currentCommand]. pose proof (headerLine_nonempty _ _ _ Hh).
    destruct rest; [congruence | discriminate].
  - cbn [currentCommand]. apply wf_app; [exact (headerLine_rest_wf _ _ _ Hh)|].
    apply (wf_enc_app [x0a]); [reflexivity | apply ensureValidUTF8_wf].
Qed.

Lemma parseHistory_newline_joins_witness :
  parseHistory {| lines := [] ++ [str ": 1700000200:0;echo hello"; str "world"];
                  readErr := None |}
  = (fst (parseHistory {| lines := []; readErr := None |})
     ++ [ {| Timestamp := fst (strconv.ParseInt (str "1700000200"));
             Command := strings.TrimSpace
                          (str "echo hello" ++ [x0a] ++ ensureValidUTF8 (str "world")) |} ],
     None).
Proof.
  apply (parseHistory_newline_joins [] (str ": 1700000200:0;echo hello")
                                    (str "1700000200") (str "echo hello") (str "world")).
  - exists (str "0"). repeat split; try (vm_compute; (reflexivity || discriminate)).
    + repeat constructor.
    + repeat constructor.
    + vm_compute. intuition discriminate.
  - intros r Hr. apply (f_equal (@rev byte)) in Hr. rewrite rev_app_distr in Hr.
    vm_compute in Hr. discriminate.
  - vm_compute. reflexivity.
Defined.

(** X8. A command that is a backslash alone is lost when an empty line
    follows: the header line, the empty line and the lines after them that
    are no headers leave no record at all. *)
Theorem parseHistory_lone_backslash_lost
        (pre ks : list (list byte)) (h ts : list byte) :
  headerLine h ts [x5c] ->
  Forall (fun l => isHeader l = false) ks ->
  parseHistory {| lines := pre ++ [h; []] ++ ks; readErr := None |}
  = parseHistory {| lines := pre; readErr := None |}.
Proof.
  intros Hh Hks. unfold parseHistory. cbn [lines readErr].
  rewrite !fold_left_app. cbn [fold_left].
  rewrite (scanStep_after_header _ _ _ [x5c] [] Hh eq_refl).
  change (strings.HasSuffix [x5c] [x5c]) with true. cbv iota.
  change (slice [x5c] 0 (len [x5c] - 1) ++ ensureValidUTF8 []) with (@nil byte).
  rewrite (fold_scanStep_orphans ks Hks) by reflexivity.
  reflexivity.
Qed.

Lemma parseHistory_lone_backslash_lost_witness :
  parseHistory {| lines := [str ": 1700000000:0;pwd"]
                           ++ [str ": 1700000001:0;" ++ [x5c]; []] ++ [str "ls"];
                  readErr := None |}
  = parseHistory {| lines := [str ": 1700000000:0;pwd"]; readErr := None |}.
Proof.
  apply (parseHistory_lone_backslash_lost
           [str ": 1700000000:0;pwd"] [str "ls"]
           (str ": 1700000001:0;" ++ [x5c]) (str "1700000001")).
  - exists (str "0"). repeat split; try (vm_compute; (reflexivity || discriminate)).
    + repeat constructor.
    + repeat constructor.
    + vm_compute. intuition discriminate.
  - repeat constructor.
Defined.

(** ** The timestamps *)

Lemma FindStringSubmatch_groups line :
  len (FindStringSubmatch line) = 3 ->
  exists whole ts rest,
    FindStringSubmatch line = [whole; ts; rest] /\ digits ts /\ ts <> [].
Proof.
  intros H3.
  destruct (FindStringSubmatch_inv line)
    as (ts & el & rest & tail & -> & H1 & H2 & H4 & H5 & H6 & H7 & H8).
  { intros E. rewrite E in H3. discriminate. }
  exists (headerText ts el rest), ts, rest.
  rewrite FindStringSubmatch_header by assumption.
  repeat split; [assumption|]. intros ->. change (len (@nil byte)) with 0 in H2. lia.
Qed.

Lemma ParseInt_digits_range ts :
  digits ts -> ts <> [] -> 0 <= fst (strconv.ParseInt ts) <= MaxInt64.
Proof.
  intros Hd Hne. rewrite ParseInt_digits by assumption.
  pose proof (decimal_nonneg _ Hd). unfold MaxInt64.
  destruct (Z.ltb_spec (decimal ts) (2 ^ 63)); cbn [fst]; lia.
Qed.

Lemma scanStep_timestamps v l :
  0 <= currentTimestamp v <= MaxInt64 ->
  Forall (fun e => 0 <= Timestamp e <= MaxInt64) (allEntries v) ->
  0 <= currentTimestamp (scanStep v l) <= MaxInt64 /\
  Forall (fun e => 0 <= Timestamp e <= MaxInt64) (allEntries (scanStep v l)).
Proof.
  intros Ht Hall.
  assert (Hfin : Forall (fun e => 0 <= Timestamp e <= MaxInt64) (finalize v)).
  { unfold finalize. destruct (0 <? len (currentCommand v)); [|assumption].
    apply Forall_app. split; [assumption | constructor; [exact Ht | constructor]]. }
  unfold scanStep. cbv zeta.
  destruct (Z.eqb_spec (len (FindStringSubmatch (ensureValidUTF8 l))) 3) as [H3|H3].
  - destruct (FindStringSubmatch_groups _ H3) as (whole & ts & rest & -> & Hd & Hne).
    cbn [currentTimestamp allEntries nth]. split; [|assumption].
    apply ParseInt_digits_range; assumption.
  - destruct (0 <? len (currentCommand v)); [|split; assumption].
    destruct (strings.HasSuffix (currentCommand v) [x5c]); split; assumption.
Qed.

(** X9. No record has a negative timestamp, and none has one above the
    largest [int64]: the timestamp of every record that [parseHistory]
    returns is between 0 and 9223372036854775807. *)
Theorem parseHistory_timestamps_in_range (reader : Reader) :
  Forall (fun e => 0 <= Timestamp e <= 9223372036854775807)
         (fst (parseHistory reader)).
Proof.
  change 9223372036854775807 with MaxInt64.
  assert (H : forall ls v,
             0 <= currentTimestamp v <= MaxInt64 ->
             Forall (fun e => 0 <= Timestamp e <= MaxInt64) (allEntries v) ->
             0 <= currentTimestamp (fold_left scanStep ls v) <= MaxInt64 /\
             Forall (fun e => 0 <= Timestamp e <= MaxInt64)
                    (allEntries (fold_left scanStep ls v))).
  { induction ls as [|l ls IH]; intros v Ht Hall; cbn [fold_left]; [split; assumption|].
    destruct (scanStep_timestamps v l Ht Hall). apply IH; assumption. }
  unfold parseHistory.
  destruct (H (lines reader) initVars) as [Ht Hall].
  { cbn. unfold MaxInt64. lia. }
  { constructor. }
  destruct (readErr reader); cbn [fst]; [constructor|].
  unfold finalize.
  destruct (0 <? len (currentCommand (fold_left scanStep (lines reader) initVars)));
    [|assumption].
  apply Forall_app. split; [assumption | constructor; [exact Ht | constructor]].
Qed.

(** ** [applyLimitFilter] and [ReadHistory] *)

Lemma applyLimitFilter_skipn (entries : list HistoryEntry) (limit : Z) :
  0 < limit ->
  applyLimitFilter entries limit = skipn (Z.to_nat (len entries - limit)) entries.
Proof.
  intros Hl. unfold applyLimitFilter, slice_entries.
  destruct (Z.leb_spec limit 0); [lia|].
  destruct (Z.leb_spec (len entries) limit); cbn [orb]; [|reflexivity].
  replace (Z.to_nat (len entries - limit)) with 0%nat by lia. reflexivity.
Qed.

Lemma applyLimitFilter_all (entries : list HistoryEntry) (limit : Z) :
  limit <= 0 -> applyLimitFilter entries limit = entries.
Proof.
  intros Hl. unfold applyLimitFilter. destruct (Z.leb_spec limit 0); [reflexivity | lia].
Qed.

Lemma len_skipn {A} (n : nat) (l : list A) :
  len (skipn n l) = Z.max 0 (len l - Z.of_nat n).
Proof. unfold len. rewrite length_skipn. lia. Qed.

Lemma applyLimitFilter_compose (entries : list HistoryEntry) (n m : Z) :
  0 < m -> n <= 0 \/ m <= n ->
  applyLimitFilter (applyLimitFilter entries n) m = applyLimitFilter entries m.
Proof.
  intros Hm [Hn | Hmn].
  - rewrite (applyLimitFilter_all entries n Hn). reflexivity.
  - rewrite (applyLimitFilter_skipn entries n) by lia.
    rewrite !applyLimitFilter_skipn by lia.
    rewrite skipn_skipn, len_skipn. f_equal.
    pose proof (len_nonneg entries). lia.
Qed.

(** X10. Windows compose: cutting to the last [n] entries and then to the
    last [m], for a positive [m] not above [n], or with no cut at the first
    step, is cutting to the last [m] at once. *)
Theorem applyLimitFilter_twice (entries : list HistoryEntry) (n m : Z) :
  0 < m -> n <= 0 \/ m <= n ->
  applyLimitFilter (applyLimitFilter entries n) m = applyLimitFilter entries m.
Proof. exact (applyLimitFilter_compose entries n m). Qed.

Lemma applyLimitFilter_twice_witness :
  let e (n : Z) := {| Timestamp := n; Command := str "ls" |} in
  applyLimitFilter (applyLimitFilter [e 1; e 2; e 3; e 4] 3) 2
  = applyLimitFilter [e 1; e 2; e 3; e 4] 2.
Proof.
  intros e. apply (applyLimitFilter_twice [e 1; e 2; e 3; e 4] 3 2); lia.
Defined.

(** X11. When the file has been opened and read without error,
    [ReadHistory] returns the last records of the parse, in their order and
    with no error: all of them when the limit is not positive, at most
    [limit] of them else. *)
Theorem ReadHistory_last_records (reader : Reader) (limit : Z) :
  readErr reader = None ->
  snd (ReadHistory (inr reader) limit) = None /\
  (exists dropped,
     fst (parseHistory reader) = dropped ++ fst (ReadHistory (inr reader) limit) /\
     (limit <= 0 -> dropped = [])) /\
  (0 < limit -> len (fst (ReadHistory (inr reader) limit)) <= limit).
Proof.
  intros He. unfold ReadHistory, parseHistory. rewrite He. cbn [fst snd].
  set (es := finalize (fold_left scanStep (lines reader) initVars)).
  split; [reflexivity|]. split.
  - destruct (Z.leb_spec limit 0) as [Hl|Hl].
    + exists []. rewrite applyLimitFilter_all by assumption. split; reflexivity.
    + exists (firstn (Z.to_nat (len es - limit)) es).
      rewrite applyLimitFilter_skipn by assumption.
      split; [symmetry; apply firstn_skipn | lia].
  - intros Hl. rewrite applyLimitFilter_skipn by assumption.
    rewrite len_skipn. pose proof (len_nonneg es). lia.
Qed.

Lemma ReadHistory_last_records_witness :
  let reader := {| lines := [str ": 1700000000:0;ls"; str ": 1700000001:0;pwd"];
                   readErr := None |} in
  snd (ReadHistory (inr reader) 1) = None /\
  (exists dropped,
     fst (parseHistory reader) = dropped ++ fst (ReadHistory (inr reader) 1) /\
     (1 <= 0 -> dropped = [])) /\
  (0 < 1 -> len (fst (ReadHistory (inr reader) 1)) <= 1).
Proof.
  intros reader. apply (ReadHistory_last_records reader 1). reflexivity.
Defined.

(** * Properties of the prompts and of the answers *)

(** ** [formatHistoryContext] *)

Lemma skipn_nth_cons {A} (d : A) : forall (l : list A) (n : nat),
  (n < length l)%nat -> skipn n l = nth n l d :: skipn (S n) l.
Proof.
  induction l as [|a l IH]; intros n Hn; [cbn in Hn; lia|].
  destruct n as [|n]; [reflexivity|]. cbn [length] in Hn.
  cbn [skipn nth]. rewrite (IH n) by lia. reflexivity.
Qed.

Lemma formatLoop_spec fuel : forall historyContext i builder,
  0 <= i -> (length historyContext - Z.to_nat i <= fuel)%nat ->
  llm.formatLoop fuel historyContext i builder
  = builder ++ commandLines (skipn (Z.to_nat i) historyContext).
Proof.
  induction fuel as [|fuel IH]; intros hc i b Hi Hf; cbn [llm.formatLoop].
  - rewrite skipn_all2 by lia. symmetry. apply app_nil_r.
  - destruct (Z.ltb_spec i (len hc)) as [Hlt|Hge].
    + rewrite IH by (unfold len in *; lia).
      rewrite (skipn_nth_cons {| Timestamp := 0; Command := [] |} hc (Z.to_nat i))
        by (unfold len in *; lia).
      unfold commandLines. cbn [map concat].
      replace (Z.to_nat (i + 1)) with (S (Z.to_nat i)) by lia.
      rewrite <- !app_assoc. reflexivity.
    + rewrite skipn_all2 by (unfold len in *; lia). symmetry. apply app_nil_r.
Qed.

Lemma len_zero_iff {A} (l : list A) : (len l =? 0) = true <-> l = [].
Proof.
  destruct l; [split; reflexivity|]. rewrite len_cons.
  pose proof (len_nonneg l). split; [|discriminate].
  intros E. apply Z.eqb_eq in E. lia.
Qed.

Lemma formatHistoryContext_window header historyContext maxEntries :
  historyContext <> [] ->
  llm.formatHistoryContext header historyContext maxEntries
  = (header ++ str ":" ++ [x0a])
    ++ (strings_more.Repeat (str "-") (len header + 1) ++ [x0a])
    ++ commandLines (applyLimitFilter historyContext maxEntries)
    ++ (strings_more.Repeat (str "-") (len header + 1) ++ [x0a; x0a]).
Proof.
  intros Hne. unfold llm.formatHistoryContext.
  destruct (len historyContext =? 0) eqn:E; [apply len_zero_iff in E; congruence|].
  cbv zeta. pose proof (len_nonneg historyContext).
  rewrite formatLoop_spec.
  - rewrite <- !app_assoc. cbn [app]. do 3 f_equal.
    + unfold applyLimitFilter, slice_entries.
      destruct (Z.ltb_spec 0 maxEntries); destruct (Z.leb_spec maxEntries 0); try lia;
        destruct (Z.ltb_spec maxEntries (len historyContext));
        destruct (Z.leb_spec (len historyContext) maxEntries); try lia;
        reflexivity.
  - destruct ((0 <? maxEntries) && (maxEntries <? len historyContext)) eqn:Ec; [|lia].
    apply andb_prop in Ec as [E1 E2]. apply Z.ltb_lt in E1, E2. lia.
  - lia.
Qed.

Lemma applyLimitFilter_nonempty (entries : list HistoryEntry) (n : Z) :
  entries <> [] -> applyLimitFilter entries n <> [].
Proof.
  intros Hne E. apply (f_equal len) in E. change (len (@nil HistoryEntry)) with 0 in E.
  destruct (Z.leb_spec n 0).
  - rewrite applyLimitFilter_all in E by assumption.
    destruct entries; [congruence|]. rewrite len_cons in E. pose proof (len_nonneg entries). lia.
  - rewrite applyLimitFilter_skipn, len_skipn in E by assumption.
    destruct entries; [congruence|]. rewrite len_cons in *.
    pose proof (len_nonneg entries). lia.
Qed.

Lemma applyLimitFilter_nil (n : Z) : applyLimitFilter [] n = [].
Proof.
  unfold applyLimitFilter, slice_entries.
  destruct ((n <=? 0) || (len (@nil HistoryEntry) <=? n)); [reflexivity|].
  apply skipn_nil.
Qed.

Lemma formatHistoryContext_after_limit header entries n m :
  0 < m -> n <= 0 \/ m <= n ->
  llm.formatHistoryContext header (applyLimitFilter entries n) m
  = llm.formatHistoryContext header entries m.
Proof.
  intros Hm Hn. destruct entries as [|e es].
  - rewrite applyLimitFilter_nil. reflexivity.
  - rewrite !formatHistoryContext_window
      by (try apply applyLimitFilter_nonempty; discriminate).
    rewrite applyLimitFilter_compose by assumption. reflexivity.
Qed.

(** X12. For a history that is not empty, [formatHistoryContext] writes
    the header with a colon, a rule of dashes one longer than the header,
    the commands of the last [maxEntries] entries (of all entries when
    [maxEntries] is not positive) in their order, a newline after each,
    and the rule again with an empty line: it keeps the window that
    [applyLimitFilter] keeps. *)
Theorem formatHistoryContext_writes_window
        (header : list byte) (historyContext : list HistoryEntry) (maxEntries : Z) :
  historyContext <> [] ->
  llm.formatHistoryContext header historyContext maxEntries
  = (header ++ str ":" ++ [x0a])
    ++ (strings_more.Repeat (str "-") (len header + 1) ++ [x0a])
    ++ commandLines (applyLimitFilter historyContext maxEntries)
    ++ (strings_more.Repeat (str "-") (len header + 1) ++ [x0a; x0a]).
Proof. exact (formatHistoryContext_window header historyContext maxEntries). Qed.

Lemma formatHistoryContext_writes_window_witness :
  let e (c : list byte) := {| Timestamp := 1700000000; Command := c |} in
  llm.formatHistoryContext (str "H") [e (str "ls"); e (str "pwd"); e (str "id")] 2
  = (str "H" ++ str ":" ++ [x0a])
    ++ (strings_more.Repeat (str "-") (len (str "H") + 1) ++ [x0a])
    ++ commandLines (applyLimitFilter [e (str "ls"); e (str "pwd"); e (str "id")] 2)
    ++ (strings_more.Repeat (str "-") (len (str "H") + 1) ++ [x0a; x0a]).
Proof.
  intros e.
  apply (formatHistoryContext_writes_window
           (str "H") [e (str "ls"); e (str "pwd"); e (str "id")] 2).
  discriminate.
Defined.

Lemma buildFindPrompt_after_limit text entries limit :
  limit <= 0 \/ 150 <= limit ->
  llm.buildFindPrompt text (applyLimitFilter entries limit)
  = llm.buildFindPrompt text entries.
Proof.
  intros Hl. unfold llm.buildFindPrompt.
  rewrite formatHistoryContext_after_limit
    by (unfold llm.findHistoryContextLimit; lia).
  destruct entries as [|e es].
  - rewrite applyLimitFilter_nil. reflexivity.
  - destruct (len (applyLimitFilter (e :: es) limit) =? 0) eqn:E.
    + apply len_zero_iff in E. exfalso.
      apply (applyLimitFilter_nonempty (e :: es) limit); [discriminate | exact E].
    + destruct (len (e :: es) =? 0) eqn:E'; [apply len_zero_iff in E'; discriminate|].
      reflexivity.
Qed.

Lemma buildSuggestPrompt_after_limit text entries limit :
  limit <= 0 \/ 50 <= limit ->
  llm.buildSuggestPrompt text (applyLimitFilter entries limit)
  = llm.buildSuggestPrompt text entries.
Proof.
  intros Hl. unfold llm.buildSuggestPrompt.
  rewrite formatHistoryContext_after_limit
    by (unfold llm.suggestHistoryContextLimit; lia).
  reflexivity.
Qed.

(** X13. A limit on the history that is not below the limit of the prompt
    changes nothing in the prompt: the prompt of [find] is the same for
    every limit from 150 on, and for no limit, and the prompt of [suggest]
    for every limit from 50 on. *)
Theorem prompts_ignore_larger_limits
        (text : list byte) (entries : list HistoryEntry) (limit : Z) :
  (limit <= 0 \/ 150 <= limit ->
   llm.buildFindPrompt text (applyLimitFilter entries limit)
   = llm.buildFindPrompt text entries) /\
  (limit <= 0 \/ 50 <= limit ->
   llm.buildSuggestPrompt text (applyLimitFilter entries limit)
   = llm.buildSuggestPrompt text entries).
Proof.
  split.
  - apply buildFindPrompt_after_limit.
  - apply buildSuggestPrompt_after_limit.
Qed.

Lemma prompts_ignore_larger_limits_witness :
  let es := [ {| Timestamp := 1; Command := str "ls" |};
              {| Timestamp := 2; Command := str "pwd" |} ] in
  llm.buildFindPrompt (str "q") (applyLimitFilter es 300) = llm.buildFindPrompt (str "q") es /\
  llm.buildSuggestPrompt (str "q") (applyLimitFilter es 100) = llm.buildSuggestPrompt (str "q") es.
Proof.
  intros es. split.
  - apply (prompts_ignore_larger_limits (str "q") es 300). right. lia.
  - apply (prompts_ignore_larger_limits (str "q") es 100). right. lia.
Defined.

(** ** The answers of the service *)

Lemma streqb_true (s t : list byte) : strings.eqb s t = true <-> s = t.
Proof.
  unfold strings.eqb. destruct (list_eq_dec Byte.byte_eq_dec s t); split;
    intros; congruence.
Qed.

Lemma streqb_false (s t : list byte) : strings.eqb s t = false <-> s <> t.
Proof.
  unfold strings.eqb. destruct (list_eq_dec Byte.byte_eq_dec s t); split;
    intros; congruence.
Qed.

Lemma HasPrefix_app (sub t : list byte) : strings_more.HasPrefix (sub ++ t) sub = true.
Proof.
  induction sub as [|c sub IH]; [destruct t; reflexivity|]. cbn [app strings_more.HasPrefix].
  rewrite IH, andb_true_r. apply byte_eqb_true. reflexivity.
Qed.

Lemma HasPrefix_iff (s sub : list byte) :
  strings_more.HasPrefix s sub = true <-> exists t, s = sub ++ t.
Proof.
  split.
  - revert s. induction sub as [|c sub IH]; intros s H.
    + exists s. reflexivity.
    + destruct s as [|a s]; [discriminate|]. cbn [strings_more.HasPrefix] in H.
      apply andb_prop in H as [Ha Hs]. apply byte_eqb_true in Ha. subst a.
      destruct (IH s Hs) as [t ->]. exists t. reflexivity.
  - intros [t ->]. apply HasPrefix_app.
Qed.

Lemma Index_from_ge (sub : list byte) : forall s i,
  0 <= i -> -1 <= strings_more.Index_from s sub i.
Proof.
  induction s as [|a s IH]; intros i Hi; cbn [strings_more.Index_from].
  - destruct (strings_more.HasPrefix [] sub); lia.
  - destruct (strings_more.HasPrefix (a :: s) sub); [lia|]. apply IH. lia.
Qed.

Lemma Index_from_found (sub t : list byte) : forall p i,
  0 <= i -> 0 <= strings_more.Index_from (p ++ sub ++ t) sub i.
Proof.
  induction p as [|a p IH]; intros i Hi.
  - cbn [app]. destruct sub as [|c sub].
    + destruct t; cbn; lia.
    + cbn [app strings_more.Index_from].
      change (c :: sub ++ t) with ((c :: sub) ++ t). rewrite HasPrefix_app. lia.
  - cbn [app strings_more.Index_from].
    destruct (strings_more.HasPrefix (a :: p ++ sub ++ t) sub); [lia|].
    apply IH. lia.
Qed.

Lemma Index_from_inv (sub : list byte) : forall s i,
  0 <= i -> 0 <= strings_more.Index_from s sub i ->
  exists p t, s = p ++ sub ++ t.
Proof.
  induction s as [|a s IH]; intros i Hi H; cbn [strings_more.Index_from] in H.
  - destruct (strings_more.HasPrefix [] sub) eqn:E; [|lia].
    apply HasPrefix_iff in E as [t E]. exists [], t. exact E.
  - destruct (strings_more.HasPrefix (a :: s) sub) eqn:E.
    + apply HasPrefix_iff in E as [t E]. exists [], t. exact E.
    + destruct (IH (i + 1)) as (p & t & ->); [lia | exact H |].
      exists (a :: p), t. reflexivity.
Qed.

(** [Contains] is the substring relation. *)
Lemma Contains_iff (s sub : list byte) :
  strings_more.Contains s sub = true <-> exists p t, s = p ++ sub ++ t.
Proof.
  unfold strings_more.Contains, strings_more.Index. rewrite Z.leb_le. split.
  - apply Index_from_inv. lia.
  - intros (p & t & ->). apply Index_from_found. lia.
Qed.

Section Answers.

Variable BlockReason_String : Z -> list byte.
Variable GenerateContent : list byte -> llm.Generated.


Lemma generate_blocked prompt :
  safetyBlocked (GenerateContent prompt) = true ->
  exists err,
    llm.generateGeminiContent BlockReason_String GenerateContent prompt = ([], Some err) /\
    strings_more.Contains err (str "blocked due to safety settings") = true.
Proof.
  unfold safetyBlocked, feedbackSafety, llm.generateGeminiContent.
  assert (Hp : forall r,
    strings_more.Contains
      (str "prompt blocked due to safety settings (Reason: " ++ r ++ str ")")
      (str "blocked due to safety settings") = true).
  { intros r. apply Contains_iff.
    exists (str "prompt "), (str " (Reason: " ++ r ++ str ")"). reflexivity. }
  assert (Hr : strings_more.Contains (str "response blocked due to safety settings")
                 (str "blocked due to safety settings") = true) by reflexivity.
  destruct (GenerateContent prompt) as [[r|] err | r].
  - destruct (llm.PromptFeedback_ r) as [fb|]; [|discriminate].
    intros ->. eexists. split; [reflexivity | apply Hp].
  - discriminate.
  - destruct (llm.PromptFeedback_ r) as [fb|].
    + destruct (llm.BlockReason fb =? llm.BlockReasonSafety).
      * intros _. eexists. split; [reflexivity | apply Hp].
      * cbn [orb]. destruct (llm.Candidates r) as [|c0 cs]; [discriminate|].
        intros ->. eexists. split; [reflexivity | exact Hr].
    + cbn [orb]. destruct (llm.Candidates r) as [|c0 cs]; [discriminate|].
      intros ->. eexists. split; [reflexivity | exact Hr].
Qed.

Lemma generate_cases prompt :
  (exists err, llm.generateGeminiContent BlockReason_String GenerateContent prompt = ([], Some err)) \/
  (exists resp,
     GenerateContent prompt = llm.Done resp /\
     safetyBlocked (llm.Done resp) = false /\
     llm.generateGeminiContent BlockReason_String GenerateContent prompt
     = (llm.extractTextFromResponse (Some resp), None)).
Proof.
  unfold safetyBlocked, feedbackSafety, llm.generateGeminiContent.
  destruct (GenerateContent prompt) as [[r|] err | r].
  - left. destruct (llm.PromptFeedback_ r) as [fb|]; [|eauto].
    destruct (llm.BlockReason fb =? llm.BlockReasonSafety); eauto.
  - left. eauto.
  - assert (Hn : forall t : list byte,
      (if strings.eqb t [] then ([], @None llm.error) else (t, None)) = (t, None)).
    { intros t. destruct (strings.eqb t []) eqn:E; [|reflexivity].
      apply streqb_true in E. subst t. reflexivity. }
    destruct (llm.PromptFeedback_ r) as [fb|] eqn:Ef.
    + destruct (llm.BlockReason fb =? llm.BlockReasonSafety) eqn:Eb; [left; eauto|].
      cbn [orb]. destruct (llm.Candidates r) as [|c0 cs] eqn:Ec.
      * right. exists r. rewrite Hn, Ef, Eb, Ec. auto.
      * destruct (llm.FinishReason c0 =? llm.FinishReasonSafety) eqn:Efin; [left; eauto|].
        right. exists r. rewrite Hn, Ef, Eb, Ec, Efin. auto.
    + cbn [orb]. destruct (llm.Candidates r) as [|c0 cs] eqn:Ec.
      * right. exists r. rewrite Hn, Ef, Ec. auto.
      * destruct (llm.FinishReason c0 =? llm.FinishReasonSafety) eqn:Efin; [left; eauto|].
        right. exists r. rewrite Hn, Ef, Ec, Efin. auto.
Qed.

(** X14. When the service reports a block for safety, in the feedback on
    the prompt or as the finish reason of the first candidate,
    [generateGeminiContent] returns no text and an error whose message
    contains [blocked due to safety settings], whatever text the response
    carries. *)
Theorem generateGeminiContent_blocked (prompt : list byte) :
  safetyBlocked (GenerateContent prompt) = true ->
  exists err,
    llm.generateGeminiContent BlockReason_String GenerateContent prompt = ([], Some err) /\
    strings_more.Contains err (str "blocked due to safety settings") = true.
Proof. exact (generate_blocked prompt). Qed.

(** X15. [generateGeminiContent] returns an error with no text, or no
    error: then the call succeeded, nothing reported a block for safety
    and the text is that of the text parts of the first candidate, which
    may be empty. *)
Theorem generateGeminiContent_text_or_error (prompt : list byte) :
  match llm.generateGeminiContent BlockReason_String GenerateContent prompt with
  | (text, Some _) => text = []
  | (text, None) =>
    exists resp,
      GenerateContent prompt = llm.Done resp /\
      safetyBlocked (llm.Done resp) = false /\
      text = llm.extractTextFromResponse (Some resp)
  end.
Proof.
  destruct (generate_cases prompt) as [[err E] | (resp & Eg & Es & E)]; rewrite E.
  - reflexivity.
  - exists resp. auto.
Qed.

(** X16. For an empty history [buildFindPrompt] builds the empty prompt,
    and only for it; [FindHistoryEntries] then answers that no command was
    found without a call of the service. *)
Theorem FindHistoryEntries_empty_history
        (query : list byte) (historyContext : list HistoryEntry) :
  (llm.buildFindPrompt query historyContext = [] <-> historyContext = []) /\
  (historyContext = [] ->
   llm.FindHistoryEntries BlockReason_String GenerateContent query historyContext
   = (str "(No relevant commands found or AI response was empty)", None)).
Proof.
  split; [split|].
  - unfold llm.buildFindPrompt.
    destruct (len historyContext =? 0) eqn:E; [intros _; apply len_zero_iff, E|].
    cbv zeta. cbn [app]. discriminate.
  - intros ->. reflexivity.
  - intros ->. reflexivity.
Qed.

Lemma Find_cases (query : list byte) (historyContext : list HistoryEntry) :
  match llm.FindHistoryEntries BlockReason_String GenerateContent query historyContext with
  | (text, Some err) =>
    text = [] /\
    strings_more.HasPrefix err (str "gemini API call failed (Find): ") = true
  | (text, None) =>
    text = str "(No relevant commands found or AI response was empty)" \/
    (text <> [] /\ text <> str "No relevant commands found." /\
     exists resp,
       GenerateContent (llm.buildFindPrompt query historyContext) = llm.Done resp /\
       safetyBlocked (llm.Done resp) = false /\
       text = llm.extractTextFromResponse (Some resp))
  end.
Proof.
  unfold llm.FindHistoryEntries. cbv zeta.
  destruct (strings.eqb (llm.buildFindPrompt query historyContext) []); [left; reflexivity|].
  destruct (generate_cases (llm.buildFindPrompt query historyContext))
    as [[err E] | (resp & Eg & Es & E)]; rewrite E.
  - split; [reflexivity | apply HasPrefix_app].
  - destruct (strings.eqb (llm.extractTextFromResponse (Some resp)) []) eqn:E1;
      [left; reflexivity|].
    destruct (strings.eqb (llm.extractTextFromResponse (Some resp))
                          (str "No relevant commands found.")) eqn:E2;
      [left; reflexivity|].
    cbn [orb]. right. apply streqb_false in E1, E2. eauto 6.
Qed.

Lemma Suggest_cases (taskDescription : list byte) (historyContext : list HistoryEntry) :
  match llm.SuggestCommands BlockReason_String GenerateContent taskDescription historyContext with
  | (text, Some err) =>
    text = [] /\
    (err = str "suggestion blocked due to safety settings" \/
     strings_more.HasPrefix err (str "gemini API call failed (Suggest): ") = true)
  | (text, None) =>
    text = str "(AI could not suggest a command for this task or the response was empty)" \/
    (text <> [] /\ text <> str "Cannot suggest a command for this task." /\
     exists resp,
       GenerateContent (llm.buildSuggestPrompt taskDescription historyContext)
       = llm.Done resp /\
       safetyBlocked (llm.Done resp) = false /\
       text = llm.extractTextFromResponse (Some resp))
  end.
Proof.
  unfold llm.SuggestCommands. cbv zeta.
  destruct (generate_cases (llm.buildSuggestPrompt taskDescription historyContext))
    as [[err E] | (resp & Eg & Es & E)]; rewrite E.
  - destruct (strings_more.Contains err (str "blocked due to safety settings")).
    + split; [reflexivity | left; reflexivity].
    + split; [reflexivity | right; apply HasPrefix_app].
  - destruct (strings.eqb (llm.extractTextFromResponse (Some resp)) []) eqn:E1;
      [left; reflexivity|].
    destruct (strings.eqb (llm.extractTextFromResponse (Some resp))
                          (str "Cannot suggest a command for this task.")) eqn:E2;
      [left; reflexivity|].
    cbn [orb]. right. apply streqb_false in E1, E2. eauto 6.
Qed.

(** X17. [FindHistoryEntries] returns an error, with no text and a message
    that begins with [gemini API call failed (Find): ], or no error and
    either its phrase for no result or the text of a response that no
    block for safety came with, a text that is then neither empty nor
    [No relevant commands found.] *)
Theorem FindHistoryEntries_answers
        (query : list byte) (historyContext : list HistoryEntry) :
  match llm.FindHistoryEntries BlockReason_String GenerateContent query historyContext with
  | (text, Some err) =>
    text = [] /\
    strings_more.HasPrefix err (str "gemini API call failed (Find): ") = true
  | (text, None) =>
    text = str "(No relevant commands found or AI response was empty)" \/
    (text <> [] /\ text <> str "No relevant commands found." /\
     exists resp,
       GenerateContent (llm.buildFindPrompt query historyContext) = llm.Done resp /\
       safetyBlocked (llm.Done resp) = false /\
       text = llm.extractTextFromResponse (Some resp))
  end.
Proof. exact (Find_cases query historyContext). Qed.

(** X18. [SuggestCommands] returns an error with no text, the error being
    [suggestion blocked due to safety settings] or beginning with
    [gemini API call failed (Suggest): ], or no error and either its phrase
    for no suggestion or the text of a response that no block for safety
    came with, a text that is then neither empty nor
    [Cannot suggest a command for this task.] *)
Theorem SuggestCommands_answers
        (taskDescription : list byte) (historyContext : list HistoryEntry) :
  match llm.SuggestCommands BlockReason_String GenerateContent taskDescription historyContext with
  | (text, Some err) =>
    text = [] /\
    (err = str "suggestion blocked due to safety settings" \/
     strings_more.HasPrefix err (str "gemini API call failed (Suggest): ") = true)
  | (text, None) =>
    text = str "(AI could not suggest a command for this task or the response was empty)" \/
    (text <> [] /\ text <> str "Cannot suggest a command for this task." /\
     exists resp,
       GenerateContent (llm.buildSuggestPrompt taskDescription historyContext)
       = llm.Done resp /\
       safetyBlocked (llm.Done resp) = false /\
       text = llm.extractTextFromResponse (Some resp))
  end.
Proof. exact (Suggest_cases taskDescription historyContext). Qed.

(** X19. When the service reports a block for safety, [SuggestCommands]
    returns no text and the error [suggestion blocked due to safety
    settings], while [FindHistoryEntries] on a history that is not empty
    returns an error that begins with [gemini API call failed (Find): ]
    and contains [blocked due to safety settings]. *)
Theorem blocked_answers (text : list byte) (historyContext : list HistoryEntry) :
  (safetyBlocked (GenerateContent (llm.buildSuggestPrompt text historyContext)) = true ->
   llm.SuggestCommands BlockReason_String GenerateContent text historyContext
   = ([], Some (str "suggestion blocked due to safety settings"))) /\
  (historyContext <> [] ->
   safetyBlocked (GenerateContent (llm.buildFindPrompt text historyContext)) = true ->
   exists err,
     llm.FindHistoryEntries BlockReason_String GenerateContent text historyContext
     = ([], Some (str "gemini API call failed (Find): " ++ err)) /\
     strings_more.Contains err (str "blocked due to safety settings") = true).
Proof.
  split.
  - intros Hb. unfold llm.SuggestCommands. cbv zeta.
    destruct (generate_blocked _ Hb) as (err & E & Hc). rewrite E, Hc. reflexivity.
  - intros Hne Hb. unfold llm.FindHistoryEntries. cbv zeta.
    destruct (strings.eqb (llm.buildFindPrompt text historyContext) []) eqn:Ep.
    + apply streqb_true in Ep. exfalso. apply Hne.
      unfold llm.buildFindPrompt in Ep.
      destruct (len historyContext =? 0) eqn:E0; [apply len_zero_iff, E0|].
      cbv zeta in Ep. cbn [app] in Ep. discriminate.
    + destruct (generate_blocked _ Hb) as (err & E & Hc). rewrite E.
      exists err. split; [reflexivity | exact Hc].
Qed.

End Answers.

Lemma generateGeminiContent_blocked_witness :
  let service (_ : list byte) :=
    llm.Done
      {| llm.Candidates :=
           [ {| llm.Content_ := Some {| llm.Parts := [llm.Text (str "rm -rf /")] |};
                llm.FinishReason := llm.FinishReasonSafety |} ];
         llm.PromptFeedback_ := None |} in
  exists err,
    llm.generateGeminiContent (fun _ => str "SAFETY") service (str "prompt")
    = ([], Some err) /\
    strings_more.Contains err (str "blocked due to safety settings") = true.
Proof.
  intros service.
  apply (generateGeminiContent_blocked (fun _ => str "SAFETY") service (str "prompt")).
  reflexivity.
Defined.

Lemma FindHistoryEntries_empty_history_witness :
  llm.FindHistoryEntries (fun _ => str "SAFETY")
    (fun _ => llm.Failed None (str "no network")) (str "disk usage") []
  = (str "(No relevant commands found or AI response was empty)", None).
Proof.
  apply (FindHistoryEntries_empty_history (fun _ => str "SAFETY")
           (fun _ => llm.Failed None (str "no network")) (str "disk usage") []).
  reflexivity.
Defined.

Lemma blocked_answers_witness :
  let service (_ : list byte) :=
    llm.Failed
      (Some {| llm.Candidates := [];
               llm.PromptFeedback_ :=
                 Some {| llm.BlockReason := llm.BlockReasonSafety |} |})
      (str "blocked") in
  let es := [ {| Timestamp := 1700000000; Command := str "ls" |} ] in
  llm.SuggestCommands (fun _ => str "SAFETY") service (str "task") es
  = ([], Some (str "suggestion blocked due to safety settings")) /\
  exists err,
    llm.FindHistoryEntries (fun _ => str "SAFETY") service (str "task") es
    = ([], Some (str "gemini API call failed (Find): " ++ err)) /\
    strings_more.Contains err (str "blocked due to safety settings") = true.
Proof.
  intros service es.
  pose proof (blocked_answers (fun _ => str "SAFETY") service (str "task") es) as [Hs Hf].
  split.
  - apply Hs. reflexivity.
  - apply Hf; [discriminate | reflexivity].
Defined.

(** ** What is printed *)

Lemma asciiWhite_cases b :
  asciiWhite b ->
  u8 b = 9 \/ u8 b = 10 \/ u8 b = 11 \/ u8 b = 12 \/ u8 b = 13 \/ u8 b = 32.
Proof.
  unfold asciiWhite, strings.asciiSpace. cbv zeta. intros H.
  destruct (Z.eqb_spec (u8 b) 9); [lia|].
  destruct (Z.eqb_spec (u8 b) 10); [lia|].
  destruct (Z.eqb_spec (u8 b) 11); [lia|].
  destruct (Z.eqb_spec (u8 b) 12); [lia|].
  destruct (Z.eqb_spec (u8 b) 13); [lia|].
  destruct (Z.eqb_spec (u8 b) 32); [lia|].
  cbn [orb] in H. discriminate.
Qed.

Lemma asciiWhite_spaceEnc b :
  asciiWhite b -> isEnc [b] = true /\ spaceEnc [b] = true.
Proof.
  intros H. apply asciiWhite_cases in H. split.
  - cbn [isEnc]. apply Z.leb_le. lia.
  - unfold spaceEnc. rewrite runeOf_ascii by lia.
    destruct H as [-> | [-> | [-> | [-> | [-> | ->]]]]]; reflexivity.
Qed.

Lemma concat_singletons (s : list byte) : concat (map (fun b => [b]) s) = s.
Proof.
  induction s as [|b s IH]; [reflexivity|]. cbn [map concat app]. rewrite IH.
  reflexivity.
Qed.

Lemma TrimSpace_white (s : list byte) :
  Forall asciiWhite s -> strings.TrimSpace s = [].
Proof.
  intros H.
  assert (Hd : dropSpaces (map (fun b => [b]) s) = []).
  { induction H as [|b s Hb Hs IH]; [reflexivity|]. cbn [map dropSpaces].
    destruct (asciiWhite_spaceEnc b Hb) as [_ ->]. exact IH. }
  assert (He : Forall (fun e => isEnc e = true) (map (fun b => [b]) s)).
  { clear Hd. induction H as [|b s Hb Hs IH]; constructor; [|exact IH].
    apply asciiWhite_spaceEnc. exact Hb. }
  rewrite <- (concat_singletons s). rewrite TrimSpace_spec by exact He.
  rewrite Hd. reflexivity.
Qed.

Lemma known_iff (s : list byte) :
  existsb (strings.eqb s) cli.knownFailureMessages = true
  <-> In s cli.knownFailureMessages.
Proof.
  rewrite existsb_exists. split.
  - intros (x & Hx & E). apply streqb_true in E. subst x. exact Hx.
  - intros H. exists s. split; [exact H | apply streqb_true; reflexivity].
Qed.

Lemma printCommandOutput_cases (write : cli.Println -> option llm.error)
      (output header logOnFailure : list byte) :
  (In (strings.TrimSpace output) cli.knownFailureMessages /\
   onStdout (fst (cli.printCommandOutput write output header logOnFailure)) = []) \/
  (~ In (strings.TrimSpace output) cli.knownFailureMessages /\
   (onStdout (fst (cli.printCommandOutput write output header logOnFailure)) = [] \/
    write {| cli.file := cli.Stderr; cli.colour := cli.FgYellow;
             cli.line := [x0a] ++ header |} = None /\
    onStdout (fst (cli.printCommandOutput write output header logOnFailure))
    = [strings.TrimSpace output])).
Proof.
  unfold cli.printCommandOutput. cbv zeta.
  destruct (existsb (strings.eqb (strings.TrimSpace output)) cli.knownFailureMessages)
    eqn:E; cbn [negb].
  - left. split; [apply known_iff, E|].
    destruct (write _); reflexivity.
  - right. split.
    + intros H. apply known_iff in H. congruence.
    + destruct (write {| cli.file := cli.Stderr; cli.colour := cli.FgYellow;
                         cli.line := [x0a] ++ header |}) eqn:E1.
      * left. reflexivity.
      * right. split; [reflexivity|].
        destruct (write {| cli.file := cli.Stdout; cli.colour := cli.FgGreen;
                           cli.line := strings.TrimSpace output |}); reflexivity.
Qed.

(** X20. A line that [printCommandOutput] prints, or tries to print, on the
    standard output is the output without the white space around it, is
    not empty and is none of the known failure messages, and comes after
    the header went to the standard error without an error. *)
Theorem printCommandOutput_stdout (write : cli.Println -> option llm.error)
        (output header logOnFailure l : list byte) :
  In l (onStdout (fst (cli.printCommandOutput write output header logOnFailure))) ->
  l = strings.TrimSpace output /\
  l <> [] /\
  ~ In l cli.knownFailureMessages /\
  write {| cli.file := cli.Stderr; cli.colour := cli.FgYellow;
           cli.line := [x0a] ++ header |} = None.
Proof.
  intros Hl.
  destruct (printCommandOutput_cases write output header logOnFailure)
    as [[_ E] | [Hn [E | [Hw E]]]]; rewrite E in Hl; try contradiction.
  destruct Hl as [<- | []]. repeat split; try assumption.
  intros E0. apply Hn. rewrite E0. left. reflexivity.
Qed.

Lemma printCommandOutput_stdout_witness :
  str "ls -la" = strings.TrimSpace (str "  ls -la ") /\
  str "ls -la" <> [] /\
  ~ In (str "ls -la") cli.knownFailureMessages /\
  (fun _ : cli.Println => @None llm.error)
    {| cli.file := cli.Stderr; cli.colour := cli.FgYellow;
       cli.line := [x0a] ++ str "Found:" |} = None.
Proof.
  apply (printCommandOutput_stdout (fun _ => None) (str "  ls -la ") (str "Found:")
           (str "nothing") (str "ls -la")).
  left. reflexivity.
Defined.

(** X21. An output of ASCII white space only, the empty output among them,
    counts as a failure: the one line that [printCommandOutput] prints, or
    tries to print, is an empty line on the standard error, in no colour;
    nothing goes to the standard output. *)
Theorem printCommandOutput_blank (write : cli.Println -> option llm.error)
        (output header logOnFailure : list byte) :
  Forall asciiWhite output ->
  fst (cli.printCommandOutput write output header logOnFailure)
  = [ {| cli.file := cli.Stderr; cli.colour := cli.NoColour; cli.line := [] |} ].
Proof.
  intros H. unfold cli.printCommandOutput. cbv zeta.
  rewrite (TrimSpace_white output H).
  change (existsb (strings.eqb []) cli.knownFailureMessages) with true.
  cbn [negb]. destruct (write _); reflexivity.
Qed.

Lemma printCommandOutput_blank_witness :
  fst (cli.printCommandOutput (fun _ => None) [x20; x0a; x09] (str "Found:") (str "nothing"))
  = [ {| cli.file := cli.Stderr; cli.colour := cli.NoColour; cli.line := [] |} ].
Proof.
  apply (printCommandOutput_blank (fun _ => None) [x20; x0a; x09] (str "Found:")
           (str "nothing")).
  repeat constructor.
Defined.

(** X22. A line that reaches the standard output from an answer of
    [FindHistoryEntries] or of [SuggestCommands] is the text of a response
    of the service that no block for safety came with, without the white
    space around it: neither a phrase of the client for no result nor
    anything of an answer with an error is printed there. *)
Theorem answers_on_stdout (BlockReason_String : Z -> list byte)
        (GenerateContent : list byte -> llm.Generated)
        (write : cli.Println -> option llm.error)
        (text : list byte) (historyContext : list HistoryEntry)
        (header logOnFailure l : list byte) :
  (In l (onStdout (fst (cli.printCommandOutput write
           (fst (llm.FindHistoryEntries BlockReason_String GenerateContent
                   text historyContext))
           header logOnFailure))) ->
   exists resp,
     GenerateContent (llm.buildFindPrompt text historyContext) = llm.Done resp /\
     safetyBlocked (llm.Done resp) = false /\
     l = strings.TrimSpace (llm.extractTextFromResponse (Some resp))) /\
  (In l (onStdout (fst (cli.printCommandOutput write
           (fst (llm.SuggestCommands BlockReason_String GenerateContent
                   text historyContext))
           header logOnFailure))) ->
   exists resp,
     GenerateContent (llm.buildSuggestPrompt text historyContext) = llm.Done resp /\
     safetyBlocked (llm.Done resp) = false /\
     l = strings.TrimSpace (llm.extractTextFromResponse (Some resp))).
Proof.
  split; intros Hl.
  - pose proof (Find_cases BlockReason_String GenerateContent text historyContext) as Hc.
    destruct (llm.FindHistoryEntries BlockReason_String GenerateContent text historyContext)
      as [t [err|]]; cbn [fst] in Hl.
    + destruct Hc as [-> _].
      destruct (printCommandOutput_cases write [] header logOnFailure)
        as [[_ E] | [Hn _]]; [rewrite E in Hl; contradiction|].
      exfalso. apply Hn. left. reflexivity.
    + destruct Hc as [-> | (_ & _ & resp & Eg & Es & ->)].
      * destruct (printCommandOutput_cases write
                    (str "(No relevant commands found or AI response was empty)")
                    header logOnFailure)
          as [[_ E] | [Hn _]]; [rewrite E in Hl; contradiction|].
        exfalso. apply Hn. right. left. reflexivity.
      * exists resp. repeat split; try assumption.
        destruct (printCommandOutput_cases write (llm.extractTextFromResponse (Some resp))
                    header logOnFailure)
          as [[_ E] | [_ [E | [_ E]]]]; rewrite E in Hl; try contradiction.
        destruct Hl as [<- | []]. reflexivity.
  - pose proof (Suggest_cases BlockReason_String GenerateContent text historyContext) as Hc.
    destruct (llm.SuggestCommands BlockReason_String GenerateContent text historyContext)
      as [t [err|]]; cbn [fst] in Hl.
    + destruct Hc as [-> _].
      destruct (printCommandOutput_cases write [] header logOnFailure)
        as [[_ E] | [Hn _]]; [rewrite E in Hl; contradiction|].
      exfalso. apply Hn. left. reflexivity.
    + destruct Hc as [-> | (_ & _ & resp & Eg & Es & ->)].
      * destruct (printCommandOutput_cases write
                    (str "(AI could not suggest a command for this task or the response was empty)")
                    header logOnFailure)
          as [[_ E] | [Hn _]]; [rewrite E in Hl; contradiction|].
        exfalso. apply Hn. do 3 right. left. reflexivity.
      * exists resp. repeat split; try assumption.
        destruct (printCommandOutput_cases write (llm.extractTextFromResponse (Some resp))
                    header logOnFailure)
          as [[_ E] | [_ [E | [_ E]]]]; rewrite E in Hl; try contradiction.
        destruct Hl as [<- | []]. reflexivity.
Qed.

Lemma answers_on_stdout_witness :
  let resp :=
    {| llm.Candidates :=
         [ {| llm.Content_ := Some {| llm.Parts := [llm.Text (str "du -sh ."); llm.Text [x0a]] |};
              llm.FinishReason := 1 |} ];
       llm.PromptFeedback_ := None |} in
  let es := [ {| Timestamp := 1700000000; Command := str "du -sh ." |} ] in
  exists resp',
    llm.Done resp = llm.Done resp' /\
    safetyBlocked (llm.Done resp') = false /\
    str "du -sh ." = strings.TrimSpace (llm.extractTextFromResponse (Some resp')).
Proof.
  intros resp es.
  apply (proj1 (answers_on_stdout (fun _ => str "SAFETY") (fun _ => llm.Done resp)
           (fun _ => None) (str "disk usage") es (str "Found:") (str "nothing")
           (str "du -sh ."))).
  left. reflexivity.
Defined.

(** ** The configuration and the client *)

(** X23. [LoadConfig] fails exactly when the variable [GOOGLE_API_KEY] is
    empty or not set. The key of a loaded configuration is the value of
    the variable and is not empty, so that [NewGeminiClient] on it never
    fails for a missing key: it fails only when the library fails to make
    its client, and with that error after
    [failed to create genai client: ]. *)
Theorem LoadConfig_key_reaches_client
        (Getenv : list byte -> list byte)
        (Client : Type) (NewClient : list byte -> Client + llm.error) :
  match config.LoadConfig Getenv with
  | inr err =>
    Getenv (str "GOOGLE_API_KEY") = [] /\
    err = str "required environment variable GOOGLE_API_KEY is not set"
  | inl cfg =>
    config.GoogleAPIKey cfg = Getenv (str "GOOGLE_API_KEY") /\
    config.GoogleAPIKey cfg <> [] /\
    llm.NewGeminiClient Client NewClient (config.GoogleAPIKey cfg)
    = match NewClient (config.GoogleAPIKey cfg) with
      | inl c => inl {| llm.client := c |}
      | inr err => inr (str "failed to create genai client: " ++ err)
      end
  end.
Proof.
  unfold config.LoadConfig. cbv zeta.
  change config.EnvGoogleAPIKey with (str "GOOGLE_API_KEY").
  destruct (strings.eqb (Getenv (str "GOOGLE_API_KEY")) []) eqn:E.
  - apply streqb_true in E. split; [exact E | reflexivity].
  - cbn [config.GoogleAPIKey]. split; [reflexivity|].
    split; [apply streqb_false, E|].
    unfold llm.NewGeminiClient. rewrite E. reflexivity.
Qed.

(** ** More on the records and on the text of a response *)

(** X24. A record may have an empty command: a header line whose
    remainder is ASCII white space only, at the end of the input, gives a
    record with its timestamp and the empty command. *)
Theorem parseHistory_blank_command
        (pre : list (list byte)) (h ts rest : list byte) :
  headerLine h ts rest ->
  Forall asciiWhite rest ->
  parseHistory {| lines := pre ++ [h]; readErr := None |}
  = (fst (parseHistory {| lines := pre; readErr := None |})
     ++ [ {| Timestamp := fst (strconv.ParseInt ts); Command := [] |} ], None).
Proof.
  intros Hh Hw. unfold parseHistory. cbn [lines readErr fst].
  rewrite fold_left_app. cbn [fold_left].
  rewrite (scanStep_header _ _ _ _ Hh).
  rewrite finalize_open.
  - cbn [allEntries currentCommand currentTimestamp].
    rewrite (TrimSpace_white rest Hw). reflexivity.
  - cbn [currentCommand]. exact (headerLine_nonempty _ _ _ Hh).
  - cbn [currentCommand]. exact (headerLine_rest_wf _ _ _ Hh).
Qed.

Lemma parseHistory_blank_command_witness :
  parseHistory {| lines := [] ++ [str ": 1700000000:0;  "]; readErr := None |}
  = (fst (parseHistory {| lines := []; readErr := None |})
     ++ [ {| Timestamp := fst (strconv.ParseInt (str "1700000000")); Command := [] |} ],
     None).
Proof.
  apply (parseHistory_blank_command [] (str ": 1700000000:0;  ") (str "1700000000")
                                    (str "  ")).
  - exists (str "0"). repeat split; try (vm_compute; (reflexivity || discriminate)).
    + repeat constructor.
    + repeat constructor.
    + vm_compute. intuition discriminate.
  - repeat constructor.
Defined.

Lemma extractLoop_textsOf parts : forall result,
  llm.extractLoop parts result = result ++ textsOf parts.
Proof.
  induction parts as [|part parts IH]; intros result.
  - symmetry. apply app_nil_r.
  - destruct part as [text|]; cbn [llm.extractLoop]; rewrite IH; unfold textsOf;
      cbn [map concat app]; [rewrite app_assoc|]; reflexivity.
Qed.

(** X25. The text that [extractTextFromResponse] takes from a response is
    that of the first candidate only: the texts of its parts that are
    texts, one after the other with nothing between them. Parts that are
    no text and all other candidates add nothing, and a first candidate
    without content gives the empty text. *)
Theorem extractTextFromResponse_first_candidate
        (c0 : llm.Candidate) (others : list llm.Candidate)
        (feedback : option llm.PromptFeedback) :
  llm.extractTextFromResponse
    (Some {| llm.Candidates := c0 :: others; llm.PromptFeedback_ := feedback |})
  = match llm.Content_ c0 with
    | Some content => textsOf (llm.Parts content)
    | None => []
    end.
Proof.
  unfold llm.extractTextFromResponse. cbn [llm.Candidates].
  destruct (llm.Content_ c0) as [content|]; [|reflexivity].
  destruct (len (llm.Parts content) =? 0) eqn:E.
  - apply len_zero_iff in E. rewrite E. reflexivity.
  - apply extractLoop_textsOf.
Qed.

(** ** The commands *)

Section Run.

Variable Getenv : list byte -> list byte.
Variable ZshHistoryReader : Type.
Variable NewZshHistoryReader : ZshHistoryReader + cli.error.
Variable Open : ZshHistoryReader -> history.error + Reader.
Variable Client : Type.
Variable NewClient : list byte -> Client + llm.error.
Variable BlockReason_String : Z -> list byte.
Variable GenerateContent : Client -> list byte -> llm.Generated.

(** X26. The limit of [find] has no effect from 150 on, and that of
    [suggest] none from 50 on: with the same environment, history file and
    service, [runFind] returns the same for any two limits that are 150 or
    more or not positive, and [runSuggestCore] the same for any two that
    are 50 or more or not positive. *)
Theorem run_ignores_larger_limits (query : list byte) (limit limit' : Z)
        (noHistoryContext : bool) :
  (limit <= 0 \/ 150 <= limit -> limit' <= 0 \/ 150 <= limit' ->
   cli.runFind Getenv ZshHistoryReader NewZshHistoryReader Open
     Client NewClient BlockReason_String GenerateContent query limit
   = cli.runFind Getenv ZshHistoryReader NewZshHistoryReader Open
       Client NewClient BlockReason_String GenerateContent query limit') /\
  (limit <= 0 \/ 50 <= limit -> limit' <= 0 \/ 50 <= limit' ->
   cli.runSuggestCore Getenv ZshHistoryReader NewZshHistoryReader Open
     Client NewClient BlockReason_String GenerateContent query limit noHistoryContext
   = cli.runSuggestCore Getenv ZshHistoryReader NewZshHistoryReader Open
       Client NewClient BlockReason_String GenerateContent query limit' noHistoryContext).
Proof.
  split; intros Hl Hl'.
  - unfold cli.runFind.
    destruct (config.LoadConfig Getenv) as [cfg|err]; [|reflexivity].
    destruct NewZshHistoryReader as [historyReader|err]; [|reflexivity].
    unfold ReadHistory.
    destruct (Open historyReader) as [err|reader]; [reflexivity|].
    destruct (parseHistory reader) as [allEntries [err|]]; [reflexivity|].
    cbv zeta.
    destruct (llm.NewGeminiClient Client NewClient (config.GoogleAPIKey cfg))
      as [llmClient|err]; [|reflexivity].
    unfold llm.FindHistoryEntries. cbv zeta.
    rewrite !buildFindPrompt_after_limit by assumption. reflexivity.
  - unfold cli.runSuggestCore.
    destruct (config.LoadConfig Getenv) as [cfg|err]; [|reflexivity].
    cbv zeta. destruct noHistoryContext; cbn [negb]; [reflexivity|].
    destruct NewZshHistoryReader as [historyReader|err]; [|reflexivity].
    unfold ReadHistory.
    destruct (Open historyReader) as [err|reader]; [reflexivity|].
    destruct (parseHistory reader) as [allEntries [err|]]; [reflexivity|].
    cbv zeta.
    destruct (llm.NewGeminiClient Client NewClient (config.GoogleAPIKey cfg))
      as [llmClient|err]; [|reflexivity].
    unfold llm.SuggestCommands. cbv zeta.
    rewrite !buildSuggestPrompt_after_limit by assumption. reflexivity.
Qed.

End Run.

Lemma run_ignores_larger_limits_witness :
  let getenv (_ : list byte) := str "key" in
  let open (_ : unit) : history.error + Reader :=
    inr {| lines := [str ": 1700000000:0;ls"; str ": 1700000001:0;pwd"];
           readErr := None |} in
  let service (_ : unit) (_ : list byte) :=
    llm.Done
      {| llm.Candidates :=
           [ {| llm.Content_ := Some {| llm.Parts := [llm.Text (str "ls")] |};
                llm.FinishReason := 1 |} ];
         llm.PromptFeedback_ := None |} in
  cli.runFind getenv unit (inl tt) open unit (fun _ => inl tt)
    (fun _ => str "SAFETY") service (str "list files") 300
  = cli.runFind getenv unit (inl tt) open unit (fun _ => inl tt)
      (fun _ => str "SAFETY") service (str "list files") 150 /\
  cli.runSuggestCore getenv unit (inl tt) open unit (fun _ => inl tt)
    (fun _ => str "SAFETY") service (str "list files") 100 false
  = cli.runSuggestCore getenv unit (inl tt) open unit (fun _ => inl tt)
      (fun _ => str "SAFETY") service (str "list files") 0 false.
Proof.
  intros getenv open service. split.
  - apply (proj1 (run_ignores_larger_limits getenv unit (inl tt) open unit
                    (fun _ => inl tt) (fun _ => str "SAFETY") service
                    (str "list files") 300 150 false)); lia.
  - apply (proj2 (run_ignores_larger_limits getenv unit (inl tt) open unit
                    (fun _ => inl tt) (fun _ => str "SAFETY") service
                    (str "list files") 100 0 false)); lia.
Defined.
